(** * Museum Explorer: the API access layer of [script.js]

    A shallow embedding of the request pipeline of [src/script.js]
    (lines 12-274): the rate-limit globals, [makeApiCall],
    [loadArtworkDetails], [loadRandomArtworks], [searchArtworks] and
    [loadCuratedArtworks], together with the JavaScript primitives they
    rely on ([parseInt], [String.prototype.includes], truthiness,
    [setTimeout] under a mocked clock).

    Conventions of the embedding:
    - JavaScript numbers that hold timestamps and delays are integers well
      inside the range where double arithmetic is exact; they are modelled
      by [Z], with [NaN] added where the code can produce it ([JsNum]).
    - Strings are byte strings, as header values and status texts are.
    - The clock is a mocked clock: it advances only while the program is
      suspended, by the delay of a [setTimeout] or by the time a [fetch]
      takes, the latter supplied by the environment.
    - [makeApiCall] is modelled for one logical request running on its
      own over the globals.  The requests that a batch of
      [loadArtworkDetails] runs concurrently are not interleaved step by
      step: the environment supplies how each of them ends and in which
      order they settle, so that what is proved of the loader holds for
      every interleaving.
    - DOM collaborators ([showApiWarning], [displayArtworks], ...) are
      recorded as events and do not throw; console output is left out. *)

From Equations Require Import Equations.
From stdpp Require Import base list strings pretty.
From Stdlib Require Import ZArith Lia Ascii.

Local Open Scope string_scope.
Local Open Scope list_scope.
Local Open Scope Z_scope.

(** ** JavaScript primitives *)

Module Js.

(** A number that may be [NaN]. *)
Inductive JsNum := NaN | Num (z : Z).

Definition add (a b : JsNum) : JsNum :=
  match a, b with Num x, Num y => Num (x + y) | _, _ => NaN end.

Definition sub (a b : JsNum) : JsNum :=
  match a, b with Num x, Num y => Num (x - y) | _, _ => NaN end.

Definition mul (a b : JsNum) : JsNum :=
  match a, b with Num x, Num y => Num (x * y) | _, _ => NaN end.

(** [a < b]: false as soon as one side is [NaN]. *)
Definition ltb (a b : JsNum) : bool :=
  match a, b with Num x, Num y => x <? y | _, _ => false end.

(** Truthiness of a number: neither [0] nor [NaN]. *)
Definition truthyNum (a : JsNum) : bool :=
  match a with Num z => negb (z =? 0) | NaN => false end.

(** Truthiness of a value that is [null]/[undefined] ([None]) or a string:
    only a non-empty string is truthy. *)
Definition truthy (v : option string) : bool :=
  match v with Some (String _ _) => true | _ => false end.

(** [a || b] on such values, with a string default. *)
Definition orElse (v : option string) (d : string) : string :=
  match v with Some (String c s) => String c s | _ => d end.

(** [haystack.includes(needle)]. *)
Fixpoint includes (needle haystack : string) : bool :=
  String.prefix needle haystack
  || match haystack with
     | EmptyString => false
     | String _ rest => includes needle rest
     end.

(** White space skipped by [parseInt] (code points below 256). *)
Definition isWhiteSpace (c : ascii) : bool :=
  let n := nat_of_ascii c in
  (Nat.eqb n 9 || Nat.eqb n 10 || Nat.eqb n 11 || Nat.eqb n 12
   || Nat.eqb n 13 || Nat.eqb n 32 || Nat.eqb n 160)%bool.

Fixpoint trimStart (s : string) : string :=
  match s with
  | String c rest => if isWhiteSpace c then trimStart rest else s
  | EmptyString => EmptyString
  end.

(** Value of a character as a digit, for radices up to 36. *)
Definition digitValue (c : ascii) : option Z :=
  let n := Z.of_nat (nat_of_ascii c) in
  if (48 <=? n) && (n <=? 57) then Some (n - 48)
  else if (97 <=? n) && (n <=? 122) then Some (n - 87)
  else if (65 <=? n) && (n <=? 90) then Some (n - 55)
  else None.

(** The longest prefix of [s] made of digits of [radix], folded into its
    value; [acc] is [None] until a first digit has been read. *)
Fixpoint parseDigits (radix : Z) (s : string) (acc : option Z) : option Z :=
  match s with
  | EmptyString => acc
  | String c rest =>
      match digitValue c with
      | Some d =>
          if d <? radix
          then parseDigits radix rest (Some (default 0 acc * radix + d))
          else acc
      | None => acc
      end
  end.

Definition stripSign (s : string) : bool * string :=
  match s with
  | String "-" rest => (true, rest)
  | String "+" rest => (false, rest)
  | _ => (false, s)
  end.

Definition stripHexPrefix (s : string) : Z * string :=
  match s with
  | String "0" (String "x" rest) => (16, rest)
  | String "0" (String "X" rest) => (16, rest)
  | _ => (10, s)
  end.

(** [parseInt(s)] with no radix argument. *)
Definition parseInt (s : string) : JsNum :=
  let '(negative, s1) := stripSign (trimStart s) in
  let '(radix, s2) := stripHexPrefix s1 in
  match parseDigits radix s2 None with
  | Some v => Num (if negative then - v else v)
  | None => NaN
  end.

(** An exception value: [error.name] and [error.message]. *)
Record JsError := mkError { name : string; message : string }.

(** [new Error(msg)]. *)
Definition Error (msg : string) : JsError := mkError "Error" msg.

End Js.

Import Js.

(** ** Responses, the rate-limit globals and the environment *)

(** The fields of a parsed JSON body that the code reads.  A field that is
    absent or [null] is [None].  A listing or search answer carries
    [objectIDs]; a detail answer carries the artwork fields. *)
Record RawObject := mkRaw {
  objectIDs : option (list Z);
  objectID : option Z;
  title : option string;
  primaryImage : option string;
  primaryImageSmall : option string;
  artistDisplayName : option string;
  department : option string;
  culture : option string;
  objectDate : option string;
  medium : option string
}.

(** What [await response.json()] followed by the first property read does:
    it throws (invalid JSON, or a [null] body whose property is read), or
    it yields an object. *)
Inductive Body :=
| BodyThrows (e : JsError)
| BodyJson (o : RawObject).

(** A [Response]: status line, the two headers that steer control flow
    ([Retry-After], [X-RateLimit-Remaining]) and the body. *)
Record Response := mkResponse {
  status : Z;
  statusText : string;
  retryAfter : option string;
  rateLimitRemaining : option string;
  body : Body
}.

(** [response.ok]. *)
Definition ok (r : Response) : bool := (200 <=? status r) && (status r <=? 299).

(** How one [fetch(url)] settles, and the time it took. *)
Inductive FetchOutcome :=
| Resolves (elapsed : Z) (r : Response)
| Rejects (elapsed : Z) (e : JsError).

(** The network: the outcome of the fetch that the invocation with retry
    count [n] of a logical request for [url] issues. *)
Definition Network := string -> nat -> FetchOutcome.

(** The globals of lines 16-18 and the mocked clock [Date.now()]. *)
Record World := mkWorld {
  apiCallCount : Z;
  rateLimitResetTime : option JsNum;
  isRateLimited : bool;
  now : Z
}.

(** The state at page load. *)
Definition initialWorld (t : Z) : World := mkWorld 0 None false t.

(** Observable effects of [makeApiCall]. *)
Inductive Event :=
| EvTimeout (delay : JsNum)      (* await setTimeout(resolve, delay) *)
| EvFetch (url : string)         (* fetch(url) issued *)
| EvWarning (remaining : string) (* showApiWarning(...) *).

(** Milliseconds a [setTimeout(resolve, d)] takes under the mocked clock:
    a negative or [NaN] delay fires at once. *)
Definition delayMs (d : JsNum) : Z :=
  match d with Num z => Z.max 0 z | NaN => 0 end.

Definition tick (ms : Z) (w : World) : World :=
  mkWorld (apiCallCount w) (rateLimitResetTime w) (isRateLimited w)
          (now w + Z.max 0 ms).

Definition sleep (d : JsNum) (w : World) : World := tick (delayMs d) w.

Definition setLimited (b : bool) (w : World) : World :=
  mkWorld (apiCallCount w) (rateLimitResetTime w) b (now w).

Definition setResetTime (t : JsNum) (w : World) : World :=
  mkWorld (apiCallCount w) (Some t) (isRateLimited w) (now w).

Definition countCall (w : World) : World :=
  mkWorld (apiCallCount w + 1) (rateLimitResetTime w) (isRateLimited w) (now w).

(** ** [makeApiCall] (lines 57-137) *)

Definition maxRetries : nat := 3.
Definition baseDelay : Z := 1000.

(** [baseDelay * Math.pow(2, retryCount)]. *)
Definition backoff (retryCount : nat) : Z := baseDelay * 2 ^ Z.of_nat retryCount.

(** How one invocation leaves its [try] or [catch] block. *)
Inductive Step :=
| Return (r : Response)
| Throw (e : JsError)
| Retry  (* return makeApiCall(url, retryCount + 1) *).

(** Line 63: [isRateLimited && rateLimitResetTime && Date.now() < rateLimitResetTime]. *)
Definition mustWait (w : World) : bool :=
  isRateLimited w
  && match rateLimitResetTime w with
     | Some t => truthyNum t && ltb (Num (now w)) t
     | None => false
     end.

(** Lines 63-68. *)
Definition waitIfLimited (w : World) : World * list Event :=
  if mustWait w then
    let waitTime := sub (default NaN (rateLimitResetTime w)) (Num (now w)) in
    (setLimited false (sleep waitTime w), [EvTimeout waitTime])
  else (w, []).

(** Lines 81-91: the reset time a 429 response sets. *)
Definition resetTimeOn429 (r : Response) (retryCount : nat) (w : World) : JsNum :=
  if truthy (retryAfter r) then
    let waitTime := mul (parseInt (default "" (retryAfter r))) (Num 1000) in
    add (Num (now w)) waitTime
  else
    let waitTime := backoff retryCount in
    Num (now w + waitTime).

(** Lines 76-100: a 429 response. *)
Definition on429 (r : Response) (retryCount : nat) (w : World)
  : Step * World * list Event :=
  let w1 := setLimited true w in
  let w2 := setResetTime (resetTimeOn429 r retryCount w1) w1 in
  if (retryCount <? maxRetries)%nat then
    let d := sub (default NaN (rateLimitResetTime w2)) (Num (now w2)) in
    (Retry, sleep d w2, [EvTimeout d])
  else (Throw (Error "Rate limited: Maximum retries exceeded"), w2, []).

(** Lines 111-123: the low-quota advisory of a successful response. *)
Definition advisory (r : Response) : list Event :=
  match rateLimitRemaining r with
  | Some remaining =>
      if ltb (parseInt remaining) (Num 10) then [EvWarning remaining] else []
  | None => []
  end.

(** Line 104: the message of the error thrown for an answer that is not ok. *)
Definition httpErrorMessage (r : Response) : string :=
  "HTTP " +:+ pretty (status r) +:+ ": " +:+ statusText r.

(** Lines 62-125: the [try] block. *)
Definition tryBlock (net : Network) (url : string) (retryCount : nat) (w : World)
  : Step * World * list Event :=
  let '(w1, waited) := waitIfLimited w in
  let w2 := countCall w1 in
  match net url retryCount with
  | Rejects dt e => (Throw e, tick dt w2, waited ++ [EvFetch url])
  | Resolves dt response =>
      let w3 := tick dt w2 in
      if status response =? 429 then
        let '(s, w4, evs) := on429 response retryCount w3 in
        (s, w4, waited ++ EvFetch url :: evs)
      else if negb (ok response) then
        (Throw (Error (httpErrorMessage response)), w3, waited ++ [EvFetch url])
      else (Return response, w3, waited ++ EvFetch url :: advisory response)
  end.

(** Line 128: the errors the [catch] block takes for network errors. *)
Definition looksLikeNetworkError (e : JsError) : bool :=
  String.eqb (name e) "TypeError" || includes "fetch" (message e).

(** Lines 127-136: the [catch] block. *)
Definition catchBlock (retryCount : nat) (error : JsError) (w : World)
  : Step * World * list Event :=
  if (retryCount <? maxRetries)%nat && looksLikeNetworkError error then
    let waitTime := Num (backoff retryCount) in
    (Retry, sleep waitTime w, [EvTimeout waitTime])
  else (Throw error, w, []).

(** One invocation up to its [return] or [throw].  The recursive calls are
    returned, not awaited, inside the [try] block, so what they throw does
    not come back to this invocation's [catch]. *)
Definition attempt (net : Network) (url : string) (retryCount : nat) (w : World)
  : Step * World * list Event :=
  match tryBlock net url retryCount w with
  | (Throw e, w1, evs) =>
      let '(s, w2, evs') := catchBlock retryCount e w1 in (s, w2, evs ++ evs')
  | other => other
  end.

(** How a logical request ends. *)
Inductive ApiOutcome :=
| Returned (r : Response)
| Threw (e : JsError).

Definition after (evs : list Event) (x : ApiOutcome * World * list Event)
  : ApiOutcome * World * list Event :=
  let '(o, w, evs') := x in (o, w, evs ++ evs').

(** Keeps the equation of a scrutinee in scope. *)
Definition inspect {A : Type} (x : A) : {y : A | x = y} := exist _ x eq_refl.

Equations? makeApiCall (net : Network) (url : string) (retryCount : nat) (w : World)
  : ApiOutcome * World * list Event by wf (maxRetries - retryCount)%nat lt :=
  makeApiCall net url retryCount w with inspect (attempt net url retryCount w) := {
    | exist _ (Return r, w', evs) _ := (Returned r, w', evs)
    | exist _ (Throw e, w', evs) _ := (Threw e, w', evs)
    | exist _ (Retry, w', evs) H :=
        after evs (makeApiCall net url (S retryCount) w') }.
Proof.
  clear makeApiCall.
  unfold attempt, tryBlock, on429, catchBlock in H.
  destruct (waitIfLimited w) as [w1 waited].
  destruct (net url retryCount) as [dt r | dt e];
    repeat (case_match; simplify_eq/=); simplify_eq/=;
    repeat match goal with
      | E : (_ <? _)%nat = true |- _ => apply Nat.ltb_lt in E
      | E : _ && _ = true |- _ => apply andb_true_iff in E as [? ?]
      end; unfold maxRetries in *; lia.
Qed.

(** ** Artwork records (lines 215-227) *)

Module Artwork.

Record t := mk {
  id : option Z;
  title : string;
  artist : string;
  location : string;
  image : string;
  culture : option string;
  date : option string;
  medium : option string
}.

End Artwork.

(** The record built from a detail answer, or [null]: the [if] of line 215
    and the object literal of lines 216-225. *)
Definition normalize (artwork : RawObject) : option Artwork.t :=
  if truthy (primaryImage artwork) && truthy (title artwork) then
    Some (Artwork.mk
            (objectID artwork)
            (default "" (title artwork))
            (orElse (artistDisplayName artwork) "Unknown Artist")
            (orElse (department artwork) "Metropolitan Museum")
            (orElse (primaryImageSmall artwork) (default "" (primaryImage artwork)))
            (culture artwork)
            (objectDate artwork)
            (medium artwork))
  else None.

(** ** The browser around the page *)

(** Everything the page takes from its surroundings.  The requests of one
    batch of [loadArtworkDetails] run concurrently over the shared globals;
    how each of them ends is decided by the network and the event loop, so
    the environment supplies the outcome of the [makeApiCall] started for
    the identifier at input position [p] ([detailCall p url]) and the order
    in which the promises of the batch starting at index [i] settle
    ([settleOrder i]). *)
Record Browser := mkBrowser {
  network : Network;
  detailCall : nat -> string -> ApiOutcome;
  settleOrder : nat -> list (nat * Z) -> list (nat * Z);
  shuffle : list Z -> list Z;              (* [...array].sort(() => 0.5 - Math.random()) *)
  encodeURIComponent : string -> string
}.

Definition MET_API_BASE : string :=
  "https://collectionapi.metmuseum.org/public/collection/v1".

(** ** [loadArtworkDetails] (lines 202-244) *)

Definition batchSize : nat := 3.

(** [array.slice(from, to)] for indices within [0, length]. *)
Definition slice {A} (l : list A) (from to : nat) : list A :=
  take (to - from) (drop from l).

(** Line 211: the URL of a detail request. *)
Definition detailUrl (id : Z) : string :=
  MET_API_BASE +:+ "/objects/" +:+ pretty id.

(** Lines 209-232: the callback mapped over a batch, for the identifier at
    input position [p]. *)
Definition loadOne (b : Browser) (p : nat) (id : Z) : option Artwork.t :=
  match detailCall b p (detailUrl id) with
  | Threw _ => None
  | Returned response =>
      match body response with
      | BodyThrows _ => None
      | BodyJson artwork => normalize artwork
      end
  end.

(** What the loader does, as seen from outside. *)
Inductive LoaderEvent :=
| EvDispatch (p : nat) (id : Z)  (* the callback for position p starts its request *)
| EvSettled (p : nat) (id : Z)   (* the promise of position p has settled *)
| EvPace (ms : Z)                (* the delay between two batches *).

(** The identifiers of a batch with their input positions. *)
Definition positioned (i : nat) (batch : list Z) : list (nat * Z) :=
  imap (fun k id => ((i + k)%nat, id)) batch.

(** Lines 208-240: one turn of the loop, for the batch starting at [i]. *)
Definition runBatch (b : Browser) (objectIds : list Z) (i : nat)
  : list Artwork.t * list LoaderEvent :=
  let batch := slice objectIds i (i + batchSize) in
  let batchResults := imap (fun k id => loadOne b (i + k) id) batch in
  let pace :=
    if (i + batchSize <? length objectIds)%nat then [EvPace 500] else [] in
  (omap (fun artwork => artwork) batchResults,
   map (fun x => EvDispatch x.1 x.2) (positioned i batch)
   ++ map (fun x => EvSettled x.1 x.2) (settleOrder b i (positioned i batch))
   ++ pace).

(** Lines 207-241: the loop, from index [i] on, with the records and the
    events gathered so far. *)
Equations? loadLoop (b : Browser) (objectIds : list Z) (i : nat)
    (artworks : list Artwork.t) (trace : list LoaderEvent)
  : list Artwork.t * list LoaderEvent by wf (length objectIds - i)%nat lt :=
  loadLoop b objectIds i artworks trace with inspect (i <? length objectIds)%nat := {
    | exist _ true H :=
        loadLoop b objectIds (i + batchSize)
                 (artworks ++ (runBatch b objectIds i).1)
                 (trace ++ (runBatch b objectIds i).2)
    | exist _ false _ := (artworks, trace) }.
Proof. apply Nat.ltb_lt in H. unfold batchSize. lia. Qed.

Definition loadArtworkDetails (b : Browser) (objectIds : list Z)
  : list Artwork.t * list LoaderEvent :=
  loadLoop b objectIds 0 [] [].

(** ** The page: browse, search and the curated fallback (lines 140-280) *)

(** Calls to the rendering collaborator and to the fallback. *)
Inductive PageEvent :=
| ShowLoadingSkeletons
| HideLoadingSkeletons
| DisplayArtworks (artworks : list Artwork.t)
| ShowNoResults (query : string)
| ShowErrorMessage (msg : string)
| LoadCuratedArtworks  (* loadCuratedArtworks() is called *).

(** Lines 252-265. *)
Definition curatedIds : list Z :=
  [436532; 459123; 437853; 438817; 436105; 437984;
   438821; 436947; 459080; 437329; 438013; 436535].

(** Lines 247-274. *)
Definition loadCuratedArtworks (b : Browser) : list PageEvent :=
  let artworks := (loadArtworkDetails b curatedIds).1 in
  [LoadCuratedArtworks; DisplayArtworks artworks].

(** Lines 277-280. *)
Definition getRandomSample (b : Browser) (array : list Z) (size : nat) : list Z :=
  take size (shuffle b array).

(** Lines 146-156: the [try] block of [loadRandomArtworks] after the
    skeletons are shown; [inl] is a thrown error. *)
Definition browseTry (b : Browser) (w : World) : JsError + list PageEvent :=
  match (makeApiCall (network b) (MET_API_BASE +:+ "/objects") 0 w).1.1 with
  | Threw e => inl e
  | Returned response =>
      match body response with
      | BodyThrows e => inl e
      | BodyJson data =>
          match objectIDs data with
          | Some (x :: rest) =>
              let randomIds := getRandomSample b (x :: rest) 12 in
              let artworks := (loadArtworkDetails b randomIds).1 in
              inr [DisplayArtworks artworks]
          | _ => inl (Error "No artworks found")
          end
      end
  end.

(** Lines 140-168. *)
Definition loadRandomArtworks (b : Browser) (w : World) : list PageEvent :=
  ShowLoadingSkeletons ::
  match browseTry b w with
  | inr evs => evs
  | inl error =>
      if includes "Rate limited" (message error) then
        [ShowErrorMessage "API rate limit exceeded. Please wait a moment and try again."]
      else loadCuratedArtworks b
  end.

(** Line 176. *)
Definition searchUrl (b : Browser) (query : string) : string :=
  MET_API_BASE +:+ "/search?hasImages=true&q=" +:+ encodeURIComponent b query.

(** Lines 176-189: the [try] block of [searchArtworks]. *)
Definition searchTry (b : Browser) (w : World) (query : string)
  : JsError + list PageEvent :=
  match (makeApiCall (network b) (searchUrl b query) 0 w).1.1 with
  | Threw e => inl e
  | Returned response =>
      match body response with
      | BodyThrows e => inl e
      | BodyJson data =>
          match objectIDs data with
          | Some (x :: rest) =>
              let searchIds := slice (x :: rest) 0 12 in
              let artworks := (loadArtworkDetails b searchIds).1 in
              inr [DisplayArtworks artworks]
          | _ => inr [HideLoadingSkeletons; ShowNoResults query]
          end
      end
  end.

(** Lines 170-200. *)
Definition searchArtworks (b : Browser) (w : World) (query : string)
  : list PageEvent :=
  ShowLoadingSkeletons ::
  match searchTry b w query with
  | inr evs => evs
  | inl error =>
      if includes "Rate limited" (message error) then
        [ShowErrorMessage "Search rate limit exceeded. Please wait a moment and try again."]
      else [ShowErrorMessage "Search failed. Please try again."]
  end.

(** * Vocabulary of the properties *)

(** Is the event the issue of a [fetch]? *)
Definition isFetch (ev : Event) : bool :=
  match ev with EvFetch _ => true | _ => false end.

(** Number of [fetch] calls among the events. *)
Definition fetchCount (evs : list Event) : nat := length (List.filter isFetch evs).

(** [Date.now()] when the answer of a fetch that took [dt] arrives, for an
    invocation entered in world [w]. *)
Definition observedAt (w : World) (dt : Z) : Z :=
  now (tick dt (countCall (waitIfLimited w).1)).

(** The reset time the claim C2 describes, word for word: the header when
    it is present and parses as a positive integer, the computed backoff
    in every other case; [t] is the time of the observation. *)
Definition claimedResetTime (r : Response) (n : nat) (t : Z) : JsNum :=
  match retryAfter r with
  | Some h =>
      match parseInt h with
      | Num N =>
          if 0 <? N then Num (t + N * 1000)
          else Num (t + baseDelay * 2 ^ Z.of_nat n)
      | NaN => Num (t + baseDelay * 2 ^ Z.of_nat n)
      end
  | None => Num (t + baseDelay * 2 ^ Z.of_nat n)
  end.

(** A field that is present and not empty. *)
Definition presentNonEmpty (v : option string) : Prop :=
  exists s, v = Some s /\ s <> "".

(** The start indices the loop visits from [i] on, for [n] identifiers. *)
Fixpoint startsFrom (fuel i n : nat) : list nat :=
  match fuel with
  | O => []
  | S fuel' => if (i <? n)%nat then i :: startsFrom fuel' (i + batchSize) n else []
  end.

(** The start indices of the batches of an input of [n] identifiers. *)
Definition batchStarts (n : nat) : list nat := startsFrom n 0 n.

(** The answers of the callbacks over the whole input, in input order,
    [null] included. *)
Definition answers (b : Browser) (objectIds : list Z) : list (option Artwork.t) :=
  imap (loadOne b) objectIds.

(** The events of the batch that starts at [i] with identifiers [batch],
    before its pacing delay: the requests are started in input order and
    settle in the order the environment decides. *)
Definition batchEvents (b : Browser) (i : nat) (batch : list Z) : list LoaderEvent :=
  map (fun x => EvDispatch x.1 x.2) (positioned i batch)
  ++ map (fun x => EvSettled x.1 x.2) (settleOrder b i (positioned i batch)).

(** Every promise of a batch settles: the settle order is a rearrangement
    of the requests of the batch. *)
Definition everyPromiseSettles (b : Browser) : Prop :=
  forall i l, settleOrder b i l ≡ₚ l.

(** In the trace [tr] of a load of [ids], whenever a request is started,
    every request of every earlier batch has settled before. *)
Definition settledBeforeLaterBatches (ids : list Z) (tr : list LoaderEvent) : Prop :=
  forall pre q idq post p idp,
    tr = pre ++ EvDispatch q idq :: post ->
    ids !! p = Some idp ->
    (p / batchSize < q / batchSize)%nat ->
    EvSettled p idp ∈ pre.

(** The listing request of the browse path. *)
Definition listingCall (b : Browser) (w : World) : ApiOutcome :=
  (makeApiCall (network b) (MET_API_BASE +:+ "/objects") 0 w).1.1.

(** The listing step fails with [e]: the request throws [e], or reading its
    body does. *)
Definition listingFails (b : Browser) (w : World) (e : JsError) : Prop :=
  listingCall b w = Threw e
  \/ exists response, listingCall b w = Returned response /\ body response = BodyThrows e.

(** The listing step succeeds and yields no identifier: [objectIDs] is
    absent, [null] or empty. *)
Definition listingEmpty (b : Browser) (w : World) : Prop :=
  exists response data,
    listingCall b w = Returned response /\ body response = BodyJson data
    /\ (objectIDs data = None \/ objectIDs data = Some []).

(** The curated fallback is loaded. *)
Definition fallbackUsed (evs : list PageEvent) : Prop := LoadCuratedArtworks ∈ evs.

(** * Sample inputs *)

(** A 200 answer with an empty object for body. *)
Definition okResponse : Response :=
  mkResponse 200 "OK" None None
    (BodyJson (mkRaw None None None None None None None None None None)).

(** A 429 answer with the given [Retry-After] header. *)
Definition tooManyRequests (h : option string) : Response :=
  mkResponse 429 "Too Many Requests" h None
    (BodyThrows (mkError "SyntaxError" "Unexpected end of JSON input")).

(** A 502 answer whose status text mentions a fetch. *)
Definition badGateway : Response :=
  mkResponse 502 "Upstream fetch failed" None None
    (BodyThrows (mkError "SyntaxError" "Unexpected end of JSON input")).

(** A 404 answer. *)
Definition notFound : Response :=
  mkResponse 404 "Not Found" None None
    (BodyJson (mkRaw None None None None None None None None None None)).

(** A 500 answer. *)
Definition serverError : Response :=
  mkResponse 500 "Internal Server Error" None None
    (BodyThrows (mkError "SyntaxError" "Unexpected end of JSON input")).

(** The answer [{objectIDs: []}]. *)
Definition emptyListing : Response :=
  mkResponse 200 "OK" None None
    (BodyJson (mkRaw (Some []) None None None None None None None None None)).

(** A listing or search answer with the given identifiers. *)
Definition listingAnswer (ids : list Z) : Response :=
  mkResponse 200 "OK" None None
    (BodyJson (mkRaw (Some ids) None None None None None None None None None)).

(** A complete detail answer. *)
Definition artworkAnswer (id : Z) (name : string) : Response :=
  mkResponse 200 "OK" None None
    (BodyJson (mkRaw None (Some id) (Some name)
                 (Some "https://images.metmuseum.org/full.jpg") None
                 None None None None None)).

(** A detail body with an image and no title. *)
Definition untitled : RawObject :=
  mkRaw None (Some 436532) None (Some "https://images.metmuseum.org/a.jpg")
        None None None None None None.

(** A complete detail body whose artist name is empty. *)
Definition wheatField : RawObject :=
  mkRaw None (Some 436532) (Some "Wheat Field with Cypresses")
        (Some "https://images.metmuseum.org/a.jpg") None (Some "")
        (Some "European Paintings") None (Some "1889") (Some "Oil on canvas").

(** The network of scenario 4: a 429 with [Retry-After: 2], then a 200. *)
Definition limitedOnce (dt1 dt2 : Z) : Network :=
  fun _ n =>
    match n with
    | O => Resolves dt1 (tooManyRequests (Some "2"))
    | _ => Resolves dt2 okResponse
    end.

(** Scenario 1 of the specification: the listing yields 1, 2 and 3, the
    detail of 2 is a 404, the details of 1 and 3 are complete. *)
Definition scenarioOne : Network :=
  fun url _ =>
    if String.eqb url (MET_API_BASE +:+ "/objects")
    then Resolves 0 (listingAnswer [1; 2; 3])
    else if String.eqb url (detailUrl 1) then Resolves 0 (artworkAnswer 1 "One")
    else if String.eqb url (detailUrl 3) then Resolves 0 (artworkAnswer 3 "Three")
    else Resolves 0 notFound.

(** A browser whose requests are all answered with an empty object and
    whose promises settle in reverse order. *)
Definition quietBrowser : Browser :=
  mkBrowser (fun _ _ => Resolves 0 okResponse) (fun _ _ => Returned okResponse)
            (fun _ l => reverse l) (fun l => l) (fun s => s).

(** A browser whose listing and search requests find nothing. *)
Definition emptyCatalogBrowser : Browser :=
  mkBrowser (fun _ _ => Resolves 0 emptyListing) (fun _ _ => Returned okResponse)
            (fun _ l => l) (fun l => l) (fun s => s).

(** A browser whose detail requests each run on their own against the
    network, from the globals at page load, and whose promises settle in
    input order. *)
Definition isolatedBrowser (net : Network) : Browser :=
  mkBrowser net (fun _ url => (makeApiCall net url 0 (initialWorld 0)).1.1)
            (fun _ l => l) (fun l => l) (fun s => s).

(** * Proof automation *)

(** Equal outcomes, worlds and traces, up to integer arithmetic. *)
Ltac same_run :=
  repeat match goal with
    | |- (_, _) = (_, _) => f_equal
    | |- mkWorld _ _ _ _ = mkWorld _ _ _ _ => f_equal
    | |- Some _ = Some _ => f_equal
    | |- Num _ = Num _ => f_equal
    | |- _ :: _ = _ :: _ => f_equal
    | |- EvTimeout _ = EvTimeout _ => f_equal
    end; try reflexivity; try lia.

(** * More of the code: vocabulary *)

(** Is the event a low-quota warning? *)
Definition isWarning (ev : Event) : bool :=
  match ev with EvWarning _ => true | _ => false end.

(** A network that always rejects with the same error. *)
Definition offline : Network :=
  fun _ _ => Rejects 0 (mkError "TypeError" "Failed to fetch").


(** A 200 answer that reports a low remaining quota. *)
Definition lowQuota : Response :=
  mkResponse 200 "OK" None (Some "3")
    (BodyJson (mkRaw None None None None None None None None None None)).

(** Every fetch of a request for [url] is answered, by [resp n] after
    [lat n] milliseconds at retry count [n]. *)
Definition answeredBy (net : Network) (url : string)
    (lat : nat -> Z) (resp : nat -> Response) : Prop :=
  forall n, net url n = Resolves (lat n) (resp n).

(** Every fetch of a request for [url] is rejected, with [err n] after
    [lat n] milliseconds at retry count [n]. *)
Definition rejectedBy (net : Network) (url : string)
    (lat : nat -> Z) (err : nat -> JsError) : Prop :=
  forall n, net url n = Rejects (lat n) (err n).

(** The events of a request that uses up its retries with the computed
    backoff. *)
Definition backoffTrace (url : string) : list Event :=
  [EvFetch url; EvTimeout (Num 1000); EvFetch url; EvTimeout (Num 2000);
   EvFetch url; EvTimeout (Num 4000); EvFetch url].

(** The error of line 98. *)
Definition rateLimitError : JsError := Error "Rate limited: Maximum retries exceeded".

(** ** [getApiStatus] (lines 455-462) *)

(** [Math.max(0, x)]. *)
Definition max0 (x : JsNum) : JsNum :=
  match x with Num z => Num (Z.max 0 z) | NaN => NaN end.

Module ApiStatus.

Record t := mk {
  apiCallCount : Z;
  isRateLimited : bool;
  rateLimitResetTime : option JsNum;
  timeUntilReset : JsNum
}.

End ApiStatus.

Definition getApiStatus (w : World) : ApiStatus.t :=
  ApiStatus.mk (apiCallCount w) (isRateLimited w) (rateLimitResetTime w)
    (match rateLimitResetTime w with
     | Some t => if truthyNum t then max0 (sub t (Num (now w))) else Num 0
     | None => Num 0
     end).

(** A world in which a rate limit set at time 0 lifts at time 5000. *)
Definition limitedUntil5000 (t : Z) : World := mkWorld 7 (Some (Num 5000)) true t.

(** ** Reading the trace of the loader *)

(** The request an event starts, if it starts one. *)
Definition dispatchOf (ev : LoaderEvent) : option (nat * Z) :=
  match ev with EvDispatch p id => Some (p, id) | _ => None end.

(** The pacing delay an event is, if it is one. *)
Definition paceOf (ev : LoaderEvent) : option Z :=
  match ev with EvPace ms => Some ms | _ => None end.

(** In the trace [tr], whatever is started settles later on. *)
Definition startedThenSettled (tr : list LoaderEvent) : Prop :=
  forall pre p id post,
    tr = pre ++ EvDispatch p id :: post -> EvSettled p id ∈ post.

(** ** The cards, the search box and the page load (script.js) *)

(** Lines 326-327: the title shown on a card. *)
Definition displayTitle (title : string) : string :=
  if (50 <? String.length title)%nat
  then String.substring 0 47 title +:+ "..."
  else title.

(** A call of the rendering collaborator that ends the loading state. *)
Definition isTerminal (ev : PageEvent) : bool :=
  match ev with
  | DisplayArtworks _ | ShowNoResults _ | ShowErrorMessage _ => true
  | _ => false
  end.

(** [s.trimEnd()]. *)
Fixpoint trimEnd (s : string) : string :=
  match s with
  | EmptyString => EmptyString
  | String c rest =>
      match trimEnd rest with
      | EmptyString => if isWhiteSpace c then EmptyString else String c EmptyString
      | kept => String c kept
      end
  end.

(** [s.trim()]. *)
Definition trim (s : string) : string := trimEnd (trimStart s).

(** Every character of the string is white space. *)
Fixpoint blank (s : string) : bool :=
  match s with
  | EmptyString => true
  | String c rest => isWhiteSpace c && blank rest
  end.

(** What the page keeps between two events: the text of the search box
    and the [search] parameter of its URL ([None] when the URL has none).
    The URL gives back the parameter it was given. *)
Module Page.

Record t := mk {
  inputValue : string;
  searchParam : option string
}.

End Page.

(** Lines 415-424. *)
Definition clearSearch (b : Browser) (w : World) (pg : Page.t)
  : Page.t * list PageEvent :=
  (Page.mk "" None, loadRandomArtworks b w).

(** Lines 400-412. *)
Definition handleSearch (b : Browser) (w : World) (pg : Page.t)
  : Page.t * list PageEvent :=
  let query := trim (Page.inputValue pg) in
  if truthy (Some query)
  then (Page.mk (Page.inputValue pg) (Some query), searchArtworks b w query)
  else clearSearch b w pg.

(** Lines 35-43. *)
Definition initializeApp (b : Browser) (w : World) (pg : Page.t) : list PageEvent :=
  if negb (truthy (Page.searchParam pg)) then loadRandomArtworks b w else [].

(** Lines 21-32: the handler of [DOMContentLoaded].  At most one of the
    two requests is started, so their events never interleave. *)
Definition onDOMContentLoaded (b : Browser) (w : World) (pg : Page.t)
  : Page.t * list PageEvent :=
  let started := initializeApp b w pg in
  let searchQuery := Page.searchParam pg in
  if truthy searchQuery
  then (Page.mk (default "" searchQuery) searchQuery,
        started ++ searchArtworks b w (default "" searchQuery))
  else (pg, started).

(** ** The star rating of the mock page (script.js, lines 636-659) *)

(** Line 643: [artwork.rating || 5], for a rating that is an integer or
    absent. *)
Definition ratingOrFive (rating : option Z) : Z :=
  match rating with
  | Some z => if z =? 0 then 5 else z
  | None => 5
  end.

(** Lines 652-659: the five stars, [true] for a full one ([star]) and
    [false] for an empty one ([star empty]). *)
Definition createRatingStars (rating : Z) : list bool :=
  map (fun i => i <=? rating) [1; 2; 3; 4; 5].

(** * The detail page (artwork-detail.js) *)

(** ** [buildGeographyString] (lines 344-355) *)

(** The four fields of an artwork that the function reads. *)
Record Place := mkPlace {
  city : option string;
  state : option string;
  country : option string;
  region : option string
}.

(** [components.push(v)] under [if (v)]. *)
Definition pushIfPresent (components : list string) (v : option string) : list string :=
  if truthy v then components ++ [default "" v] else components.

(** Lines 345-352: the array [geoComponents] when it is joined. *)
Definition geoComponents (artwork : Place) : list string :=
  let c1 := pushIfPresent [] (city artwork) in
  let c2 := pushIfPresent c1 (state artwork) in
  let c3 := pushIfPresent c2 (country artwork) in
  if truthy (region artwork) && negb (bool_decide (default "" (region artwork) ∈ c3))
  then c3 ++ [default "" (region artwork)]
  else c3.

(** [array.join(', ')] on strings. *)
Definition buildGeographyString (artwork : Place) : string :=
  String.concat ", " (geoComponents artwork).

(** ** [populateAdditionalImages] (lines 231-235 and 289-321) *)

(** What becomes of the strip of additional images. *)
Inductive ImageStrip :=
| StripHidden
| StripShown (images : list (string * string))  (* src and alt of each image *).

(** Line 293: the images that are kept. *)
Definition validImages (images : list string) : list string :=
  take 5 (List.filter (fun img => truthy (Some img) && negb (String.eqb (trim img) "")) images).

(** Lines 289-321. *)
Definition populateAdditionalImages (images : list string) : ImageStrip :=
  if (length (validImages images) =? 0)%nat then StripHidden
  else StripShown
         (imap (fun index imageUrl =>
                  (imageUrl, "Additional view " +:+ pretty (index + 1)%nat))
               (validImages images)).

(** Lines 231-235: [additionalImages] may be absent. *)
Definition additionalImagesStrip (additionalImages : option (list string)) : ImageStrip :=
  match additionalImages with
  | Some (img :: rest) => populateAdditionalImages (img :: rest)
  | _ => StripHidden
  end.

(** ** Decimal texts *)

(** The string is made of decimal digits only. *)
Fixpoint allDigits (s : string) : bool :=
  match s with
  | EmptyString => true
  | String c rest =>
      match digitValue c with
      | Some d => (d <? 10) && allDigits rest
      | None => false
      end
  end.

(** ** The requests of the detail page ([src/artwork-detail.js], lines 40-463)

    The detail page has its own globals and its own copy of [makeApiCall].
    Its requests run one after the other: the request for the artwork,
    then the search for related artworks, then the requests for their
    details.  The loading of the related artworks is started by
    [populateArtworkDetails] and not awaited; nothing else runs beside it.
    Identifiers are integers that print in decimal notation, and the
    rendering functions do not throw. *)

Module Detail.

(** Lines 90-148: the [try] block of the detail page's [makeApiCall]; it is
    that of script.js without the low-quota warning. *)
Definition tryBlock (net : Network) (url : string) (retryCount : nat) (w : World)
  : Step * World * list Event :=
  let '(w1, waited) := waitIfLimited w in
  let w2 := countCall w1 in
  match net url retryCount with
  | Rejects dt e => (Throw e, tick dt w2, waited ++ [EvFetch url])
  | Resolves dt response =>
      let w3 := tick dt w2 in
      if status response =? 429 then
        let '(s, w4, evs) := on429 response retryCount w3 in
        (s, w4, waited ++ EvFetch url :: evs)
      else if negb (ok response) then
        (Throw (Error (httpErrorMessage response)), w3, waited ++ [EvFetch url])
      else (Return response, w3, waited ++ [EvFetch url])
  end.

(** Lines 86-160: one invocation. *)
Definition attempt (net : Network) (url : string) (retryCount : nat) (w : World)
  : Step * World * list Event :=
  match tryBlock net url retryCount w with
  | (Throw e, w1, evs) =>
      let '(s, w2, evs') := catchBlock retryCount e w1 in (s, w2, evs ++ evs')
  | other => other
  end.

Equations? makeApiCall (net : Network) (url : string) (retryCount : nat) (w : World)
  : ApiOutcome * World * list Event by wf (maxRetries - retryCount)%nat lt :=
  makeApiCall net url retryCount w with inspect (attempt net url retryCount w) := {
    | exist _ (Return r, w', evs) _ := (Returned r, w', evs)
    | exist _ (Throw e, w', evs) _ := (Threw e, w', evs)
    | exist _ (Retry, w', evs) H :=
        after evs (makeApiCall net url (S retryCount) w') }.
Proof.
  try clear makeApiCall.
  unfold attempt, tryBlock, on429, catchBlock in H.
  destruct (waitIfLimited w) as [w1 waited].
  destruct (net url retryCount) as [dt r | dt e];
    repeat (case_match; simplify_eq/=); simplify_eq/=;
    repeat match goal with
      | E : (_ <? _)%nat = true |- _ => apply Nat.ltb_lt in E
      | E : _ && _ = true |- _ => apply andb_true_iff in E as [? ?]
      end; unfold maxRetries in *; lia.
Qed.

(** The surroundings of the detail page.  Its requests run one after the
    other, so the environment answers the fetches by their number, the
    value of [apiCallCount] once the fetch is counted. *)
Record Env := mkEnv {
  fetchAt : Z -> string -> FetchOutcome;
  shuffle : list Z -> list Z;
  encodeURIComponent : string -> string;
  inheritedText : string -> string  (* how a member of Object.prototype prints *)
}.

(** The network as a request that starts in world [w] sees it. *)
Definition networkAt (env : Env) (w : World) : Network :=
  fun url n => fetchAt env (apiCallCount w + Z.of_nat n + 1) url.

(** A related artwork, as lines 390-394 build it. *)
Module Related.

Record t := mk {
  objectID : option Z;
  title : string;
  primaryImageSmall : string
}.

End Related.

(** Line 392: the title of a related artwork. *)
Definition relatedTitle (title : string) : string :=
  if (30 <? String.length title)%nat
  then String.substring 0 27 title +:+ "..."
  else title.

(** What the loop over the related identifiers does, step by step. *)
Inductive RelatedStep :=
| Requested (id : Z) (evs : list Event)  (* the request for [id] and its events *)
| Paused (ms : Z)                        (* the delay after a request *).

(** Lines 385-398: the records after the request for [id] has ended. *)
Definition collect (artworks : list Related.t) (o : ApiOutcome) : list Related.t :=
  match o with
  | Threw _ => artworks
  | Returned response =>
      match body response with
      | BodyThrows _ => artworks
      | BodyJson artwork =>
          if truthy (primaryImageSmall artwork) && truthy (title artwork) then
            artworks ++ [Related.mk (objectID artwork)
                           (relatedTitle (default "" (title artwork)))
                           (default "" (primaryImageSmall artwork))]
          else artworks
      end
  end.

(** Lines 384-405: the loop, with the records gathered so far. *)
Fixpoint relatedLoop (env : Env) (objectIds : list Z) (artworks : list Related.t)
    (w : World) : list Related.t * World * list RelatedStep :=
  match objectIds with
  | [] => (artworks, w, [])
  | id :: rest =>
      let '(o, w1, evs) := makeApiCall (networkAt env w) (detailUrl id) 0 w in
      let artworks1 := collect artworks o in
      if (6 <=? length artworks1)%nat then (artworks1, w1, [Requested id evs])
      else
        let w2 := sleep (Num 200) w1 in
        let '(result, w3, steps) := relatedLoop env rest artworks1 w2 in
        (result, w3, Requested id evs :: Paused 200 :: steps)
  end.

(** Lines 381-408. *)
Definition loadRelatedArtworkDetails (env : Env) (objectIds : list Z) (w : World)
  : list Related.t * World * list RelatedStep :=
  relatedLoop env objectIds [] w.

(** Lines 435-455. *)
Definition departmentMap : list (string * Z) :=
  [("American Decorative Arts", 1); ("Ancient Near Eastern Art", 3);
   ("Arms and Armor", 4); ("Arts of Africa, Oceania, and the Americas", 5);
   ("Asian Art", 6); ("The Cloisters", 7); ("The Costume Institute", 8);
   ("Drawings and Prints", 9); ("Egyptian Art", 10); ("European Paintings", 11);
   ("European Sculpture and Decorative Arts", 12); ("Greek and Roman Art", 13);
   ("Islamic Art", 14); ("The Robert Lehman Collection", 15);
   ("The Libraries", 16); ("Medieval Art", 17); ("Musical Instruments", 18);
   ("Photographs", 19); ("Modern Art", 21)].

(** The names every object literal inherits from [Object.prototype]. *)
Definition inheritedKeys : list string :=
  ["constructor"; "hasOwnProperty"; "isPrototypeOf"; "propertyIsEnumerable";
   "toLocaleString"; "toString"; "valueOf"; "__proto__"; "__defineGetter__";
   "__defineSetter__"; "__lookupGetter__"; "__lookupSetter__"].

(** What [departmentMap[departmentName] || ''] yields. *)
Inductive DepartmentId :=
| DeptNumber (id : Z)
| DeptEmpty
| DeptInherited (key : string).

Fixpoint lookupOwn (table : list (string * Z)) (key : string) : option Z :=
  match table with
  | [] => None
  | (k, v) :: rest => if String.eqb k key then Some v else lookupOwn rest key
  end.

(** Lines 433-458; an absent name is looked up as "undefined". *)
Definition getDepartmentId (departmentName : option string) : DepartmentId :=
  let key := default "undefined" departmentName in
  match lookupOwn departmentMap key with
  | Some id => if id =? 0 then DeptEmpty else DeptNumber id
  | None => if bool_decide (key ∈ inheritedKeys) then DeptInherited key else DeptEmpty
  end.

(** How the identifier prints inside the template of line 362. *)
Definition departmentIdText (env : Env) (d : DepartmentId) : string :=
  match d with
  | DeptNumber id => pretty id
  | DeptEmpty => ""
  | DeptInherited key => inheritedText env key
  end.

(** Line 362. *)
Definition relatedSearchUrl (env : Env) (department : option string) : string :=
  MET_API_BASE +:+ "/search?hasImages=true&departmentId="
  +:+ departmentIdText env (getDepartmentId department)
  +:+ "&q=" +:+ encodeURIComponent env (orElse department "painting").

(** [a !== b] on an integer and the result of [parseInt]. *)
Definition differs (id : Z) (parsed : JsNum) : bool :=
  match parsed with Num z => negb (id =? z) | NaN => true end.

(** Lines 460-463. *)
Definition getRandomSample (env : Env) (array : list Z) (size : nat) : list Z :=
  take size (shuffle env array).

(** Lines 368-369: the identifiers whose details are requested. *)
Definition relatedIds (env : Env) (objectIDs : list Z) (currentObjectId : Z) : list Z :=
  let filteredIds :=
    List.filter (fun id => differs id (parseInt (pretty currentObjectId))) objectIDs in
  getRandomSample env filteredIds 6.

(** What becomes of the section of related artworks. *)
Inductive RelatedSection :=
| SectionUntouched
| SectionHidden
| SectionShown (artworks : list Related.t).

(** Lines 410-430. *)
Definition populateRelatedArtworks (artworks : list Related.t) : RelatedSection :=
  match artworks with
  | [] => SectionHidden
  | _ => SectionShown artworks
  end.

(** Lines 357-379. *)
Definition loadRelatedArtworks (env : Env) (department culture : option string)
    (currentObjectId : Z) (w : World)
  : RelatedSection * World * list RelatedStep :=
  let '(o, w1, _) := makeApiCall (networkAt env w) (relatedSearchUrl env department) 0 w in
  match o with
  | Threw _ => (SectionHidden, w1, [])
  | Returned response =>
      match body response with
      | BodyThrows _ => (SectionHidden, w1, [])
      | BodyJson data =>
          match objectIDs data with
          | Some (x :: rest) =>
              let randomIds := relatedIds env (x :: rest) currentObjectId in
              let '(relatedData, w2, steps) := loadRelatedArtworkDetails env randomIds w1 in
              (populateRelatedArtworks relatedData, w2, steps)
          | _ => (SectionUntouched, w1, [])
          end
      end
  end.

(** Calls of the detail page to its rendering functions. *)
Inductive DetailEvent :=
| ShowLoading
| HideLoading
| ShowError (message : string)
| PopulateArtworkDetails (artworkData : RawObject)
| RelatedArtworks (section : RelatedSection).

(** Lines 182-189: the message for a thrown error. *)
Definition errorMessageFor (error : JsError) : string :=
  if includes "Rate limited" (message error) then
    "API rate limit exceeded. Please wait a moment and try again."
  else if includes "HTTP 404" (message error) then
    "This artwork was not found in the museum's collection."
  else if includes "HTTP" (message error) then
    "The museum's API is temporarily unavailable. Please try again later."
  else "Failed to load artwork details.".

(** [artworkData.objectID] as a condition. *)
Definition truthyId (id : option Z) : bool :=
  match id with Some z => negb (z =? 0) | None => false end.

(** Lines 163-193, with the loading of the related artworks that
    [populateArtworkDetails] starts (line 286) and that goes on after
    [hideLoading]. *)
Definition loadArtworkDetails (env : Env) (objectId : string) (w : World)
  : list DetailEvent :=
  ShowLoading ::
  match makeApiCall (networkAt env w) (MET_API_BASE +:+ "/objects/" +:+ objectId) 0 w with
  | (Threw error, _, _) => [ShowError (errorMessageFor error)]
  | (Returned response, w1, _) =>
      match body response with
      | BodyThrows error => [ShowError (errorMessageFor error)]
      | BodyJson artworkData =>
          if truthyId (objectID artworkData) then
            [PopulateArtworkDetails artworkData; HideLoading;
             RelatedArtworks
               (loadRelatedArtworks env (department artworkData) (culture artworkData)
                  (default 0 (objectID artworkData)) w1).1.1]
          else [ShowError (errorMessageFor (Error "Artwork not found"))]
      end
  end.

(** Lines 54-63. *)
Definition initializeDetailPage (env : Env) (objectId : option string) (w : World)
  : list DetailEvent :=
  if truthy objectId then loadArtworkDetails env (default "" objectId) w
  else [ShowError "No artwork ID provided"].

End Detail.

(** An environment of the detail page that answers every fetch with the
    same outcome. *)
Definition constantEnv (o : FetchOutcome) : Detail.Env :=
  Detail.mkEnv (fun _ _ => o) (fun l => l) (fun s => s) (fun _ => "").

(** An environment of the detail page: a search finds 436532, 1 and 2, and
    every other request gets an artwork whose title has forty characters. *)
Definition relatedEnv : Detail.Env :=
  Detail.mkEnv
    (fun _ url =>
       if includes "/search" url then Resolves 0 (listingAnswer [436532; 1; 2])
       else Resolves 0
              (mkResponse 200 "OK" None None
                 (BodyJson (mkRaw None (Some 436532)
                              (Some "0123456789012345678901234567890123456789")
                              (Some "full.jpg") (Some "small.jpg") None
                              (Some "European Paintings") None None None))))
    (fun l => l) (fun s => s) (fun _ => "").

(** The events that are not warnings. *)
Definition withoutWarnings (evs : list Event) : list Event :=
  List.filter (fun ev => negb (isWarning ev)) evs.

(** The identifiers a run of the loop requested, in order. *)
Definition requestedIds (steps : list Detail.RelatedStep) : list Z :=
  omap (fun s => match s with Detail.Requested id _ => Some id | _ => None end) steps.

(** The delays of a run of the loop, in order. *)
Definition pauses (steps : list Detail.RelatedStep) : list Z :=
  omap (fun s => match s with Detail.Paused ms => Some ms | _ => None end) steps.

(** A related artwork as the page can show it. *)
Definition presentable (a : Detail.Related.t) : Prop :=
  (String.length (Detail.Related.title a) <= 30)%nat
  /\ Detail.Related.title a <> ""
  /\ Detail.Related.primaryImageSmall a <> "".

(** The records [relatedEnv] yields for the artwork 436532. *)
Definition relatedShown : list Detail.Related.t :=
  let a := Detail.Related.mk (Some 436532) "012345678901234567890123456..." "small.jpg" in
  [a; a].

(** An artwork answer without an identifier. *)
Definition anonymousAnswer : Response :=
  mkResponse 200 "OK" None None
    (BodyJson (mkRaw None None (Some "Wheat Field") None None None None None None None)).

(** * Properties *)

(** ** The primitives on sample inputs *)

Example parseInt_seconds : parseInt "2" = Num 2.
Proof. reflexivity. Qed.

Example parseInt_date : parseInt "Wed, 21 Oct 2015 07:28:00 GMT" = NaN.
Proof. reflexivity. Qed.

Example parseInt_prefix : parseInt "  +12px" = Num 12.
Proof. reflexivity. Qed.

Example parseInt_hex : parseInt "0x1f" = Num 31.
Proof. reflexivity. Qed.

Example includes_failed_to_fetch : includes "fetch" "Failed to fetch" = true.
Proof. reflexivity. Qed.

Example httpErrorMessage_notFound : httpErrorMessage notFound = "HTTP 404: Not Found".
Proof. vm_compute. reflexivity. Qed.

(** ** One invocation of [makeApiCall] *)

Lemma fetchCount_app evs1 evs2 :
  fetchCount (evs1 ++ evs2) = (fetchCount evs1 + fetchCount evs2)%nat.
Proof. unfold fetchCount. rewrite List.filter_app, length_app. reflexivity. Qed.

Lemma fetchCount_waitIfLimited w : fetchCount (waitIfLimited w).2 = 0%nat.
Proof. unfold waitIfLimited. destruct (mustWait w); reflexivity. Qed.

Lemma fetchCount_advisory r : fetchCount (advisory r) = 0%nat.
Proof. unfold advisory. repeat case_match; reflexivity. Qed.

(** Every invocation issues exactly one fetch. *)
Lemma attempt_one_fetch net url n w : fetchCount (attempt net url n w).2 = 1%nat.
Proof.
  unfold attempt, tryBlock, on429, catchBlock.
  pose proof (fetchCount_waitIfLimited w) as Hw.
  destruct (waitIfLimited w) as [w1 waited]; simpl in Hw.
  destruct (net url n) as [dt r | dt e];
    repeat (case_match; simplify_eq/=);
    rewrite ?fetchCount_app, ?Hw; try reflexivity.
  - change (EvFetch url :: advisory r) with ([EvFetch url] ++ advisory r).
    rewrite fetchCount_app, fetchCount_advisory. reflexivity.
Qed.

(** An invocation re-invokes itself only below [maxRetries]. *)
Lemma attempt_Retry_lt net url n w w' evs :
  attempt net url n w = (Retry, w', evs) -> (n < maxRetries)%nat.
Proof.
  unfold attempt, tryBlock, on429, catchBlock.
  destruct (waitIfLimited w) as [w1 waited].
  destruct (net url n) as [dt r | dt e];
    repeat (case_match; simplify_eq/=); intros; simplify_eq/=;
    repeat match goal with
      | E : (_ <? _)%nat = true |- _ => apply Nat.ltb_lt in E
      | E : _ && _ = true |- _ => apply andb_true_iff in E as [? ?]
      end; assumption.
Qed.

(** The unfolding of [makeApiCall] along one invocation. *)
Lemma makeApiCall_step net url n w :
  makeApiCall net url n w =
  match attempt net url n w with
  | (Return r, w', evs) => (Returned r, w', evs)
  | (Throw e, w', evs) => (Threw e, w', evs)
  | (Retry, w', evs) => after evs (makeApiCall net url (S n) w')
  end.
Proof.
  funelim (makeApiCall net url n w).
  all: match goal with E : attempt _ _ _ _ = _ |- _ => rewrite E end.
  all: reflexivity.
Qed.

Lemma fetchCount_after evs x :
  fetchCount (after evs x).2 = (fetchCount evs + fetchCount x.2)%nat.
Proof. destruct x as [[o w] evs']. simpl. apply fetchCount_app. Qed.

(** C1. One logical request issues at least one and at most
    [maxRetries + 1 = 4] fetches, whatever the URL, the globals and the
    answers of the network are: started as the code starts it, at retry
    count 0, it issues at most four; resumed at retry count [n], at most
    one per retry count from [n] to [maxRetries].  Retries after a 429 and
    retries after a transport error draw on the same counter. *)
Theorem makeApiCall_at_most_four_attempts (net : Network) (url : string) (w : World) :
  (1 <= fetchCount (makeApiCall net url 0 w).2 <= 4)%nat
  /\ (forall n w', (1 <= fetchCount (makeApiCall net url n w').2
                      <= S (maxRetries - n))%nat).
Proof.
  assert (Hbound : forall k n w',
             k = (maxRetries - n)%nat ->
             (1 <= fetchCount (makeApiCall net url n w').2 <= S k)%nat).
  { induction k as [k IH] using lt_wf_ind. intros n w0 Hk.
    rewrite makeApiCall_step.
    pose proof (attempt_one_fetch net url n w0) as H1.
    destruct (attempt net url n w0) as [[[r | e |] w1] evs] eqn:Ha; simpl in *;
      try lia.
    apply attempt_Retry_lt in Ha.
    rewrite fetchCount_after, H1.
    specialize (IH (maxRetries - S n)%nat ltac:(lia) (S n) w1 eq_refl). lia. }
  split.
  - apply (Hbound 3%nat 0%nat w eq_refl).
  - intros n w'. apply (Hbound _ n w' eq_refl).
Qed.

(** The budget can be used up, by 429 answers and transport errors mixed. *)
Example four_attempts_reached :
  let net : Network := fun _ n =>
    match n with
    | 0%nat => Resolves 0 (tooManyRequests None)
    | 1%nat => Rejects 0 (mkError "TypeError" "Failed to fetch")
    | 2%nat => Resolves 0 (tooManyRequests (Some "1"))
    | _ => Resolves 0 okResponse
    end in
  makeApiCall net "u" 0 (initialWorld 0) =
  (Returned okResponse,
   mkWorld 4 (Some (Num 4000)) true 4000,
   [EvFetch "u"; EvTimeout (Num 1000); EvFetch "u"; EvTimeout (Num 2000);
    EvFetch "u"; EvTimeout (Num 1000); EvFetch "u"]).
Proof. vm_compute. reflexivity. Qed.

(** ** What a 429 response does to the globals *)

Lemma attempt_on_429 net url n w dt r :
  net url n = Resolves dt r -> status r = 429 ->
  attempt net url n w =
  (let w3 := tick dt (countCall (waitIfLimited w).1) in
   ((on429 r n w3).1.1, (on429 r n w3).1.2,
    (waitIfLimited w).2 ++ EvFetch url :: (on429 r n w3).2)).
Proof.
  intros Hnet Hst. unfold attempt, tryBlock. rewrite Hnet.
  destruct (waitIfLimited w) as [w1 waited]. simpl.
  rewrite Hst. simpl. unfold on429, catchBlock.
  destruct (n <? maxRetries)%nat eqn:Hn; simpl; [reflexivity |].
  rewrite app_nil_r. reflexivity.
Qed.

Lemma on429_world r n w :
  isRateLimited (on429 r n w).1.2 = true
  /\ rateLimitResetTime (on429 r n w).1.2 = Some (resetTimeOn429 r n w).
Proof.
  unfold on429. destruct (n <? maxRetries)%nat; simpl; split; reflexivity.
Qed.

(** C2, as stated, fails: with [Retry-After: 0] (present, but not a
    positive integer) the first invocation sets the reset time to the time
    of the observation, not to that time plus the backoff of 1000 ms. *)
Lemma retry_after_zero_is_not_backoff :
  let r := tooManyRequests (Some "0") in
  let net : Network := fun _ _ => Resolves 0 r in
  let w := initialWorld 5000 in
  rateLimitResetTime (attempt net "u" 0 w).1.2 = Some (Num 5000)
  /\ claimedResetTime r 0 (observedAt w 0) = Num 6000
  /\ rateLimitResetTime (attempt net "u" 0 w).1.2
     <> Some (claimedResetTime r 0 (observedAt w 0)).
Proof. split; [reflexivity | split; [reflexivity | discriminate]]. Qed.

(** C2, amended. After a 429 response observed at retry count [n] the
    limited flag is set and the reset time is: the time of the observation
    plus [N * 1000] whenever the [Retry-After] header is present, not empty,
    and [parseInt] reads an integer [N] from it (of any sign, zero
    included), the header taking precedence over the backoff; the time of
    the observation plus [baseDelay * 2^n] when the header is absent or
    empty. *)
Theorem reset_time_after_429 (net : Network) (url : string) (n : nat)
    (w : World) (dt : Z) (r : Response) :
  net url n = Resolves dt r ->
  status r = 429 ->
  let t := observedAt w dt in
  let w' := (attempt net url n w).1.2 in
  isRateLimited w' = true
  /\ (forall h N, retryAfter r = Some h -> h <> "" -> parseInt h = Num N ->
       rateLimitResetTime w' = Some (Num (t + N * 1000)))
  /\ (retryAfter r = None \/ retryAfter r = Some "" ->
       rateLimitResetTime w' = Some (Num (t + baseDelay * 2 ^ Z.of_nat n))).
Proof.
  intros Hnet Hst t w'. subst w'.
  rewrite (attempt_on_429 _ _ _ _ _ _ Hnet Hst). cbn zeta. simpl.
  destruct (on429_world r n (tick dt (countCall (waitIfLimited w).1))) as [Hl Hr].
  split; [exact Hl |]. rewrite Hr. unfold resetTimeOn429. fold (observedAt w dt).
  fold t. split.
  - intros h N Hh Hne HN. rewrite Hh. destruct h as [| c h]; [congruence |].
    simpl. simpl in HN. rewrite HN. reflexivity.
  - intros [Hh | Hh]; rewrite Hh; reflexivity.
Qed.

Lemma reset_time_after_429_witness :
  let net : Network := fun _ _ => Resolves 0 (tooManyRequests (Some "2")) in
  rateLimitResetTime (attempt net "u" 1 (initialWorld 5000)).1.2 = Some (Num 7000).
Proof.
  intros net.
  destruct (reset_time_after_429 net "u" 1 (initialWorld 5000) 0
              (tooManyRequests (Some "2")) eq_refl eq_refl) as [_ [H _]].
  apply (H "2" 2); [reflexivity | discriminate | reflexivity].
Defined.

(** ** Clearing the limited flag *)

(** The flag is cleared by the wait of lines 63-68, which is entered only
    while the reset time lies ahead. *)
Lemma waitIfLimited_pending w t :
  isRateLimited w = true -> rateLimitResetTime w = Some (Num t) ->
  t <> 0 -> now w < t ->
  waitIfLimited w =
  (mkWorld (apiCallCount w) (Some (Num t)) false t, [EvTimeout (Num (t - now w))]).
Proof.
  intros Hl Hr Ht Hlt. unfold waitIfLimited, mustWait. rewrite Hl, Hr. simpl.
  destruct (Z.eqb_spec t 0) as [| _]; [contradiction |].
  destruct (Z.ltb_spec (now w) t) as [_ |]; [| lia]. simpl.
  unfold setLimited, sleep, tick, delayMs. simpl. rewrite Hr.
  do 2 f_equal. lia.
Qed.

(** Once the reset time is reached the wait is skipped, and the flag with it. *)
Lemma waitIfLimited_expired w t :
  rateLimitResetTime w = Some (Num t) -> t <= now w -> waitIfLimited w = (w, []).
Proof.
  intros Hr Hle. unfold waitIfLimited, mustWait. rewrite Hr. simpl.
  destruct (Z.ltb_spec (now w) t); [lia |].
  rewrite andb_false_r, andb_false_r. reflexivity.
Qed.

(** An invocation that starts at or after the reset time and gets an answer
    other than 429 leaves the limited flag as it found it. *)
Lemma expired_limit_is_not_cleared net url n w t dt r :
  rateLimitResetTime w = Some (Num t) -> t <= now w ->
  net url n = Resolves dt r -> status r <> 429 ->
  isRateLimited (attempt net url n w).1.2 = isRateLimited w.
Proof.
  intros Hr Hle Hnet Hst. unfold attempt, tryBlock.
  rewrite (waitIfLimited_expired w t Hr Hle), Hnet.
  destruct (Z.eqb_spec (status r) 429) as [| _]; [contradiction |].
  unfold catchBlock. repeat (case_match; simplify_eq/=); reflexivity.
Qed.

(** C3. Scenario 4 on the code, from the state at page load at any time
    [t] and whatever the two fetches take: the request returns the 200
    answer after two fetches separated by one wait of exactly 2000 ms, the
    retry starts exactly at the reset time, and the limited flag is still
    set when the request has returned. *)
Theorem retry_after_two_scenario (url : string) (t dt1 dt2 : Z) :
  let t1 := t + Z.max 0 dt1 in
  makeApiCall (limitedOnce dt1 dt2) url 0 (initialWorld t) =
  (Returned okResponse,
   mkWorld 2 (Some (Num (t1 + 2000))) true (t1 + 2000 + Z.max 0 dt2),
   [EvFetch url; EvTimeout (Num 2000); EvFetch url]).
Proof.
  intros t1.
  rewrite makeApiCall_step.
  rewrite (attempt_on_429 (limitedOnce dt1 dt2) url 0 (initialWorld t) dt1
             (tooManyRequests (Some "2")) eq_refl eq_refl).
  cbn -[Z.add Z.sub Z.max Z.mul makeApiCall parseInt]. fold t1.
  change (parseInt "2") with (Num 2).
  cbn -[Z.add Z.sub Z.max Z.mul makeApiCall].
  rewrite makeApiCall_step. unfold attempt, tryBlock.
  erewrite waitIfLimited_expired; [| reflexivity | simpl; lia].
  cbn -[Z.add Z.sub Z.max Z.mul].
  unfold tick, countCall, sleep, delayMs, setResetTime, setLimited.
  cbn -[Z.add Z.sub Z.max Z.mul]. fold t1.
  same_run.
Qed.

(** ** Answers that are neither 429 nor a success *)

(** An answer that is neither 429 nor ok throws the HTTP error of line 104
    into the [catch] block of the same invocation. *)
Lemma attempt_on_http_error net url n w dt r :
  net url n = Resolves dt r -> status r <> 429 -> ok r = false ->
  attempt net url n w =
  (let w3 := tick dt (countCall (waitIfLimited w).1) in
   let c := catchBlock n (Error (httpErrorMessage r)) w3 in
   (c.1.1, c.1.2, ((waitIfLimited w).2 ++ [EvFetch url]) ++ c.2)).
Proof.
  intros Hnet Hst Hok. unfold attempt, tryBlock. rewrite Hnet.
  destruct (waitIfLimited w) as [w1 waited]. cbn [fst snd].
  destruct (Z.eqb_spec (status r) 429) as [| _]; [contradiction |].
  rewrite Hok. cbn [negb].
  destruct (catchBlock n (Error (httpErrorMessage r)) (tick dt (countCall w1)))
    as [[s w2] evs]. reflexivity.
Qed.

(** X2. Unless its message is taken for a network error (it contains
    "fetch"), an HTTP failure ends the request in the invocation that
    receives it, after that single fetch and without any wait. *)
Lemma http_error_fails_at_once net url n w dt r :
  net url n = Resolves dt r -> status r <> 429 -> ok r = false ->
  includes "fetch" (httpErrorMessage r) = false ->
  makeApiCall net url n w =
  (Threw (Error (httpErrorMessage r)),
   tick dt (countCall (waitIfLimited w).1),
   (waitIfLimited w).2 ++ [EvFetch url]).
Proof.
  intros Hnet Hst Hok Hmsg. rewrite makeApiCall_step.
  rewrite (attempt_on_http_error net url n w dt r Hnet Hst Hok).
  unfold catchBlock, looksLikeNetworkError.
  cbn [name message Error String.eqb Ascii.eqb Bool.eqb orb].
  rewrite Hmsg, andb_false_r. cbn [fst snd]. rewrite app_nil_r. reflexivity.
Qed.

Lemma badGateway_caught n w :
  catchBlock n (Error (httpErrorMessage badGateway)) w =
  if (n <? maxRetries)%nat
  then (Retry, sleep (Num (backoff n)) w, [EvTimeout (Num (backoff n))])
  else (Throw (Error "HTTP 502: Upstream fetch failed"), w, []).
Proof.
  unfold catchBlock.
  replace (looksLikeNetworkError (Error (httpErrorMessage badGateway)))
    with true by (vm_compute; reflexivity).
  replace (httpErrorMessage badGateway)
    with "HTTP 502: Upstream fetch failed" by (vm_compute; reflexivity).
  rewrite andb_true_r. reflexivity.
Qed.

(** C5. On the code, a 502 answer whose status text is
    "Upstream fetch failed" is retried like a network error: the request
    issues four fetches, with the backoff waits in between, before the
    HTTP error surfaces. *)
Theorem http_error_mentioning_fetch_is_retried (url : string) (t : Z) :
  makeApiCall (fun _ _ => Resolves 0 badGateway) url 0 (initialWorld t) =
  (Threw (Error "HTTP 502: Upstream fetch failed"),
   mkWorld 4 None false (t + 7000),
   [EvFetch url; EvTimeout (Num 1000); EvFetch url; EvTimeout (Num 2000);
    EvFetch url; EvTimeout (Num 4000); EvFetch url]).
Proof.
  set (net := fun (_ : string) (_ : nat) => Resolves 0 badGateway).
  assert (Hstep : forall n w,
             attempt net url n w =
             (let w3 := tick 0 (countCall (waitIfLimited w).1) in
              let c := catchBlock n (Error (httpErrorMessage badGateway)) w3 in
              (c.1.1, c.1.2, ((waitIfLimited w).2 ++ [EvFetch url]) ++ c.2))).
  { intros n w.
    apply (attempt_on_http_error net url n w 0 badGateway);
      [reflexivity | discriminate | reflexivity]. }
  do 4 (rewrite makeApiCall_step, Hstep; cbv zeta;
        rewrite badGateway_caught;
        cbn -[Z.add Z.sub Z.max Z.mul makeApiCall]).
  change (backoff 0) with 1000. change (backoff 1) with 2000.
  change (backoff 2) with 4000.
  unfold tick, countCall, sleep, delayMs, initialWorld.
  cbn -[Z.add Z.sub Z.max Z.mul].
  same_run.
Qed.

(** ** The batched loader *)

Lemma loadLoop_step b ids i arts tr :
  loadLoop b ids i arts tr =
  if (i <? length ids)%nat
  then loadLoop b ids (i + batchSize)
         (arts ++ (runBatch b ids i).1) (tr ++ (runBatch b ids i).2)
  else (arts, tr).
Proof.
  funelim (loadLoop b ids i arts tr);
    match goal with E : (_ <? _)%nat = _ |- _ => rewrite E end; reflexivity.
Qed.

(** The loop is the sequence of its batches. *)
Lemma loadLoop_batches b ids fuel : forall i arts tr,
  (length ids - i <= fuel)%nat ->
  loadLoop b ids i arts tr =
  (arts ++ flat_map (fun j => (runBatch b ids j).1) (startsFrom fuel i (length ids)),
   tr ++ flat_map (fun j => (runBatch b ids j).2) (startsFrom fuel i (length ids))).
Proof.
  induction fuel as [| fuel IH]; intros i arts tr Hfuel;
    rewrite loadLoop_step; simpl.
  - destruct (Nat.ltb_spec i (length ids)); [lia |]. by rewrite !app_nil_r.
  - destruct (Nat.ltb_spec i (length ids)); [| by rewrite !app_nil_r].
    rewrite IH by (unfold batchSize; lia). simpl. by rewrite !app_assoc.
Qed.

Lemma loadArtworkDetails_batches b ids :
  loadArtworkDetails b ids =
  (flat_map (fun j => (runBatch b ids j).1) (batchStarts (length ids)),
   flat_map (fun j => (runBatch b ids j).2) (batchStarts (length ids))).
Proof.
  unfold loadArtworkDetails, batchStarts.
  rewrite (loadLoop_batches b ids (length ids)) by lia. reflexivity.
Qed.

Lemma slice_batch (ids : list Z) i :
  slice ids i (i + batchSize) = take batchSize (drop i ids).
Proof. unfold slice. f_equal. lia. Qed.

(** The survivors of the batches from [i] on are the survivors of the
    input from [i] on, in input order. *)
Lemma batches_in_input_order b ids fuel : forall i,
  (length ids - i <= fuel)%nat ->
  flat_map (fun j => (runBatch b ids j).1) (startsFrom fuel i (length ids)) =
  omap (fun a => a) (imap (fun k id => loadOne b (i + k) id) (drop i ids)).
Proof.
  induction fuel as [| fuel IH]; intros i Hfuel; simpl.
  - rewrite drop_ge by lia. reflexivity.
  - destruct (Nat.ltb_spec i (length ids)) as [Hlt | Hge];
      [| rewrite drop_ge by lia; reflexivity].
    simpl. rewrite IH by (unfold batchSize; lia).
    rewrite slice_batch.
    rewrite <- (take_drop batchSize (drop i ids)) at 2.
    rewrite imap_app, omap_app, drop_drop. f_equal.
    destruct (Nat.le_gt_cases (i + batchSize) (length ids)) as [Hle | Hgt].
    + rewrite length_take_le by (rewrite length_drop; lia).
      f_equal. apply imap_ext. intros k id _. f_equal. lia.
    + rewrite !(drop_ge ids (i + batchSize)) by lia. reflexivity.
Qed.

Lemma loadArtworkDetails_results b ids :
  (loadArtworkDetails b ids).1 = omap (fun a => a) (answers b ids).
Proof.
  rewrite loadArtworkDetails_batches. unfold batchStarts. cbn [fst].
  rewrite (batches_in_input_order b ids (length ids) 0) by lia.
  rewrite drop_0. reflexivity.
Qed.

Lemma omap_id_sublist {A} (l : list (option A)) :
  Some <$> omap (fun a => a) l `sublist_of` l.
Proof.
  induction l as [| [a |] l IH]; simpl.
  - constructor.
  - by constructor.
  - by constructor.
Qed.

Lemma omap_id_length {A} (l : list (option A)) :
  (length (omap (fun a => a) l) <= length l)%nat.
Proof.
  rewrite <- (length_fmap Some). apply sublist_length, omap_id_sublist.
Qed.

(** C10. The records come back in input order: the result is the list of
    the callbacks' answers over the whole input, taken in input order, with
    the [null]s dropped; so the records form a subsequence of the answers
    listed by input position, across and within batches. *)
Theorem loader_preserves_input_order (b : Browser) (ids : list Z) :
  (loadArtworkDetails b ids).1 = omap (fun a => a) (imap (loadOne b) ids)
  /\ Some <$> (loadArtworkDetails b ids).1 `sublist_of` imap (loadOne b) ids.
Proof.
  rewrite loadArtworkDetails_results. split; [reflexivity |].
  apply omap_id_sublist.
Qed.

(** ** Normalization and what the loader keeps *)

Lemma truthy_presentNonEmpty v : truthy v = true <-> presentNonEmpty v.
Proof.
  unfold presentNonEmpty. destruct v as [[| c s] |]; simpl; split;
    try discriminate; try reflexivity.
  - intros (s & [= <-] & Hs). congruence.
  - intros _. eexists. split; [reflexivity | discriminate].
  - intros (s & [=] & _).
Qed.

Lemma orElse_default v d : ~ presentNonEmpty v -> orElse v d = d.
Proof.
  rewrite <- truthy_presentNonEmpty. destruct v as [[| c s] |]; simpl;
    [reflexivity | intros []; reflexivity | reflexivity].
Qed.

(** A record of the callback comes from an answered request whose body
    normalizes to it. *)
Lemma loadOne_Some b p id a :
  loadOne b p id = Some a <->
  exists response raw,
    detailCall b p (detailUrl id) = Returned response
    /\ body response = BodyJson raw /\ normalize raw = Some a.
Proof.
  unfold loadOne. split.
  - destruct (detailCall b p (detailUrl id)) as [response | e]; [| discriminate].
    destruct (body response) as [e | raw] eqn:Hb; [discriminate |].
    intros Hn. exists response, raw. auto.
  - intros (response & raw & -> & -> & Hn). exact Hn.
Qed.

(** The records of the result are exactly the records of the callbacks. *)
Lemma loader_member b ids a :
  a ∈ (loadArtworkDetails b ids).1 <->
  exists p id, ids !! p = Some id /\ loadOne b p id = Some a.
Proof.
  rewrite loadArtworkDetails_results, list_elem_of_omap. unfold answers. split.
  - intros (x & Hx & ->). apply elem_of_lookup_imap_1 in Hx as (p & id & Hx & Hp).
    exists p, id. auto.
  - intros (p & id & Hp & Ha). exists (Some a). split; [| reflexivity].
    rewrite <- Ha. by apply elem_of_lookup_imap_2.
Qed.

(** C6. Normalization yields [null] exactly when [primaryImage] and [title]
    are not both present and non-empty; a record it yields has the artist
    "Unknown Artist" whenever [artistDisplayName] is absent or empty; and
    every record of a loader result is the normalization of a body with
    both fields, so that a discarded body is in no result set. *)
Theorem normalize_discards_incomplete (raw : RawObject) :
  (normalize raw = None <->
   ~ (presentNonEmpty (primaryImage raw) /\ presentNonEmpty (title raw)))
  /\ (forall a, normalize raw = Some a ->
       ~ presentNonEmpty (artistDisplayName raw) ->
       Artwork.artist a = "Unknown Artist")
  /\ (forall b ids a, a ∈ (loadArtworkDetails b ids).1 ->
       exists raw', normalize raw' = Some a
                    /\ presentNonEmpty (primaryImage raw')
                    /\ presentNonEmpty (title raw')).
Proof.
  assert (Hsome : forall r a, normalize r = Some a ->
            presentNonEmpty (primaryImage r) /\ presentNonEmpty (title r)).
  { intros r a. unfold normalize.
    destruct (truthy (primaryImage r)) eqn:Hi; [| discriminate].
    destruct (truthy (title r)) eqn:Ht; [| discriminate].
    intros _. by rewrite <- !truthy_presentNonEmpty. }
  split; [| split].
  - split.
    + intros Hn [Hi Ht]. apply truthy_presentNonEmpty in Hi, Ht.
      unfold normalize in Hn. rewrite Hi, Ht in Hn. discriminate.
    + intros Hnot. destruct (normalize raw) as [a |] eqn:Hn; [| reflexivity].
      destruct Hnot. by apply (Hsome raw a).
  - intros a Hn Hartist. unfold normalize in Hn.
    destruct (truthy (primaryImage raw) && truthy (title raw)); [| discriminate].
    injection Hn as <-. simpl. by apply orElse_default.
  - intros b ids a (p & id & _ & Ha)%loader_member.
    apply loadOne_Some in Ha as (response & raw' & _ & _ & Hn).
    exists raw'. split; [exact Hn |]. by apply (Hsome raw' a).
Qed.

Lemma normalize_discards_incomplete_witness :
  normalize untitled = None
  /\ (exists a, normalize wheatField = Some a /\ Artwork.artist a = "Unknown Artist").
Proof.
  split.
  - apply (normalize_discards_incomplete untitled).
    intros [_ (s & [=] & _)].
  - eexists. split; [reflexivity |].
    apply (normalize_discards_incomplete wheatField); [reflexivity |].
    intros (s & [= <-] & Hs). congruence.
Defined.

(** C7. A request that fails, with whatever error, gives [null] for its
    identifier and the loader still returns; the result is no longer than
    the input, holds exactly the records of the requests that were answered
    with a body that normalizes, and lists the survivors of the batches in
    the order of the batches. *)
Theorem loader_swallows_failures (b : Browser) (ids : list Z) :
  (forall p id e, detailCall b p (detailUrl id) = Threw e -> loadOne b p id = None)
  /\ (length (loadArtworkDetails b ids).1 <= length ids)%nat
  /\ (forall a, a ∈ (loadArtworkDetails b ids).1 <->
       exists p id response raw,
         ids !! p = Some id
         /\ detailCall b p (detailUrl id) = Returned response
         /\ body response = BodyJson raw /\ normalize raw = Some a)
  /\ (loadArtworkDetails b ids).1 =
     flat_map
       (fun j => omap (fun a => a)
                   (imap (fun k id => loadOne b (j + k) id)
                      (slice ids j (j + batchSize))))
       (batchStarts (length ids)).
Proof.
  split; [| split; [| split]].
  - intros p id e He. unfold loadOne. rewrite He. reflexivity.
  - rewrite loadArtworkDetails_results. unfold answers.
    etransitivity; [apply omap_id_length |]. by rewrite length_imap.
  - intros a. rewrite loader_member. split.
    + intros (p & id & Hp & Ha). apply loadOne_Some in Ha as (r & raw & ?).
      exists p, id, r, raw. tauto.
    + intros (p & id & r & raw & Hp & Hrest). exists p, id. split; [exact Hp |].
      apply loadOne_Some. exists r, raw. exact Hrest.
  - rewrite loadArtworkDetails_batches. reflexivity.
Qed.

(** ** Batches run one after the other *)

Lemma runBatch_events b ids i :
  (runBatch b ids i).2 =
  batchEvents b i (take batchSize (drop i ids))
  ++ (if (i + batchSize <? length ids)%nat then [EvPace 500] else []).
Proof. unfold runBatch, batchEvents. rewrite slice_batch. cbn [snd]. by rewrite app_assoc. Qed.

(** Where an element of a concatenation sits. *)
Lemma split_app_cons {A} (l1 l2 pre post : list A) x :
  l1 ++ l2 = pre ++ x :: post ->
  x ∈ l1 \/ exists pre', pre = l1 ++ pre' /\ l2 = pre' ++ x :: post.
Proof.
  revert pre. induction l1 as [| y l1 IH]; intros pre Heq.
  - right. exists pre. auto.
  - destruct pre as [| z pre]; simplify_eq/=.
    + left. left.
    + destruct (IH pre ltac:(done)) as [Hin | (pre' & -> & ->)].
      * left. by right.
      * right. by exists pre'.
Qed.

(** A request started by the batch at [i] has a position in that batch. *)
Lemma dispatched_in_batch b ids i q idq :
  EvDispatch q idq ∈ (runBatch b ids i).2 -> (i <= q < i + batchSize)%nat.
Proof.
  rewrite runBatch_events. unfold batchEvents.
  rewrite !elem_of_app, !list_elem_of_fmap.
  intros [[(x & [= -> ->] & Hx) | (x & [=] & _)] | Hpace].
  - unfold positioned in Hx.
    apply elem_of_lookup_imap_1 in Hx as (k & id & -> & Hk).
    apply lookup_lt_Some in Hk. rewrite length_take in Hk. simpl. lia.
  - destruct (i + batchSize <? length ids)%nat; inversion Hpace as [| ? ? ? Hnil];
      inversion Hnil.
Qed.

(** Every request of the batch at [i] settles within that batch. *)
Lemma settled_in_batch b ids i p idp :
  everyPromiseSettles b ->
  ids !! p = Some idp -> (i <= p < i + batchSize)%nat ->
  EvSettled p idp ∈ (runBatch b ids i).2.
Proof.
  intros Hperm Hp Hrange. rewrite runBatch_events. unfold batchEvents.
  rewrite !elem_of_app. left. right.
  apply list_elem_of_fmap. exists (p, idp). split; [reflexivity |].
  rewrite (Hperm i _). unfold positioned.
  replace p with (i + (p - i))%nat at 1 by lia.
  apply (elem_of_lookup_imap_2 (fun k id => ((i + k)%nat, id))).
  rewrite lookup_take_lt by lia. rewrite lookup_drop.
  replace (i + (p - i))%nat with p by lia. exact Hp.
Qed.

(** Positions of the batch that starts at a multiple [i] of the batch size
    have the batch number of [i]; later positions have a larger one or the
    same. *)
Lemma batch_number i q :
  (i mod 3 = 0)%nat -> (i <= q)%nat ->
  (i / 3 <= q / 3)%nat /\ ((q < i + 3)%nat -> (q / 3 = i / 3)%nat).
Proof.
  intros Hi Hq.
  pose proof (Nat.div_mod_eq i 3). pose proof (Nat.div_mod_eq q 3).
  pose proof (Nat.mod_upper_bound q 3). lia.
Qed.

Lemma batches_barrier b ids fuel :
  everyPromiseSettles b ->
  forall i pre q idq post p idp,
    (i mod batchSize = 0)%nat ->
    flat_map (fun j => (runBatch b ids j).2) (startsFrom fuel i (length ids))
    = pre ++ EvDispatch q idq :: post ->
    ids !! p = Some idp -> (i <= p)%nat ->
    (p / batchSize < q / batchSize)%nat ->
    EvSettled p idp ∈ pre.
Proof.
  intros Hperm. unfold batchSize.
  induction fuel as [| fuel IH]; intros i pre q idq post p idp Hi Htr Hp Hip Hpq;
    simpl in Htr.
  - by destruct pre.
  - destruct (i <? length ids)%nat; [| by destruct pre].
    simpl in Htr. apply split_app_cons in Htr as [Hin | (pre' & -> & Htr)].
    + apply dispatched_in_batch in Hin. unfold batchSize in Hin.
      destruct (batch_number i q Hi ltac:(lia)) as [_ Hq].
      destruct (batch_number i p Hi Hip) as [Hle _]. lia.
    + apply elem_of_app.
      destruct (Nat.lt_ge_cases p (i + 3)) as [Hlt | Hge].
      * left. apply settled_in_batch; [done | done | unfold batchSize; lia].
      * right. apply (IH (i + 3)%nat pre' q idq post p idp); try done.
        rewrite <- Nat.Div0.add_mod_idemp_l, Hi. reflexivity.
Qed.

(** C8. Twelve identifiers are loaded in exactly four batches of three,
    with the pacing delay of 500 ms after each batch but the last; and,
    every promise settling, no request of a batch is started before every
    request of the batches before it has settled. *)
Theorem twelve_ids_four_batches (b : Browser)
    (a0 a1 a2 a3 a4 a5 a6 a7 a8 a9 a10 a11 : Z) :
  everyPromiseSettles b ->
  let ids := [a0; a1; a2; a3; a4; a5; a6; a7; a8; a9; a10; a11] in
  batchStarts (length ids) = [0; 3; 6; 9]%nat
  /\ (loadArtworkDetails b ids).2 =
     batchEvents b 0 [a0; a1; a2] ++ [EvPace 500]
     ++ batchEvents b 3 [a3; a4; a5] ++ [EvPace 500]
     ++ batchEvents b 6 [a6; a7; a8] ++ [EvPace 500]
     ++ batchEvents b 9 [a9; a10; a11]
  /\ settledBeforeLaterBatches ids (loadArtworkDetails b ids).2.
Proof.
  intros Hperm ids. split; [reflexivity | split].
  - rewrite loadArtworkDetails_batches. cbn [snd].
    change (batchStarts (length ids)) with [0; 3; 6; 9]%nat.
    cbn [flat_map]. rewrite !runBatch_events. subst ids. cbn.
    rewrite <- ?app_assoc. cbn. rewrite ?app_nil_r. reflexivity.
  - intros pre q idq post p idp Htr Hp Hpq.
    rewrite loadArtworkDetails_batches in Htr. cbn [snd] in Htr.
    apply (batches_barrier b ids (length ids) Hperm 0%nat pre q idq post p idp);
      [reflexivity | exact Htr | exact Hp | lia | exact Hpq].
Qed.

Lemma twelve_ids_four_batches_witness :
  everyPromiseSettles quietBrowser
  /\ settledBeforeLaterBatches curatedIds (loadArtworkDetails quietBrowser curatedIds).2.
Proof.
  assert (Hperm : everyPromiseSettles quietBrowser).
  { intros i l. simpl. apply reverse_Permutation. }
  split; [exact Hperm |].
  apply (twelve_ids_four_batches quietBrowser
           436532 459123 437853 438817 436105 437984
           438821 436947 459080 437329 438013 436535 Hperm).
Defined.

(** ** The page: when the curated fallback is used *)

Lemma browseTry_inl b w e :
  browseTry b w = inl e <->
  listingFails b w e \/ (listingEmpty b w /\ e = Error "No artworks found").
Proof.
  unfold browseTry, listingFails, listingEmpty, listingCall.
  destruct ((makeApiCall (network b) (MET_API_BASE +:+ "/objects") 0 w).1.1)
    as [response | e0].
  - destruct (body response) as [e0 | data] eqn:Hb.
    + split.
      * intros [= <-]. left. right. exists response. auto.
      * intros [[[=] | (r & [= <-] & Hr)] | [(r & d & [= <-] & Hr & _) _]];
          congruence.
    + destruct (objectIDs data) as [[| x rest] |] eqn:Hids.
      * split.
        -- intros [= <-]. right. split; [| reflexivity].
           exists response, data. auto.
        -- intros [[[=] | (r & [= <-] & Hr)] | [_ ->]]; congruence.
      * split; [discriminate |].
        intros [[[=] | (r & [= <-] & Hr)] | [(r & d & [= <-] & Hr & Hd) _]];
          [congruence |].
        assert (d = data) as -> by congruence. destruct Hd; congruence.
      * split.
        -- intros [= <-]. right. split; [| reflexivity].
           exists response, data. auto.
        -- intros [[[=] | (r & [= <-] & Hr)] | [_ ->]]; congruence.
  - split.
    + intros [= <-]. left. left. reflexivity.
    + intros [[[= <-] | (r & [=] & _)] | [(r & d & [=] & _) _]]. reflexivity.
Qed.

Lemma fallbackUsed_loadRandomArtworks b w :
  fallbackUsed (loadRandomArtworks b w) <->
  exists e, browseTry b w = inl e /\ includes "Rate limited" (message e) = false.
Proof.
  unfold fallbackUsed, loadRandomArtworks.
  destruct (browseTry b w) as [e | evs] eqn:Htry.
  - destruct (includes "Rate limited" (message e)) eqn:Hrl.
    + split.
      * intros Hin. repeat (inversion Hin as [| ? ? ? Hin']; clear Hin; rename Hin' into Hin).
      * intros (e' & [= <-] & He'). congruence.
    + split.
      * intros _. exists e. auto.
      * intros _. unfold loadCuratedArtworks. right. left.
  - split.
    + unfold browseTry in Htry. repeat case_match; simplify_eq.
      intros Hin. repeat (inversion Hin as [| ? ? ? Hin']; clear Hin; rename Hin' into Hin).
    + intros (e & [=] & _).
Qed.

Lemma search_never_falls_back b w query :
  ~ fallbackUsed (searchArtworks b w query).
Proof.
  unfold fallbackUsed, searchArtworks, searchTry.
  repeat case_match; simplify_eq;
    intros Hin;
    repeat (inversion Hin as [| ? ? ? Hin']; clear Hin; rename Hin' into Hin).
Qed.

(** C4, as stated, fails: when the listing request succeeds and yields an
    empty [objectIDs], nothing in the listing step has failed, and the
    browse path still loads the curated fallback. *)
Lemma empty_listing_falls_back :
  let b := emptyCatalogBrowser in
  let w := initialWorld 0 in
  listingCall b w = Returned emptyListing
  /\ body emptyListing
     = BodyJson (mkRaw (Some []) None None None None None None None None None)
  /\ (forall e, ~ listingFails b w e)
  /\ fallbackUsed (loadRandomArtworks b w).
Proof.
  split; [reflexivity | split; [reflexivity | split]].
  - intros e [H | (r & H & Hb)].
    + vm_compute in H. discriminate.
    + vm_compute in H. injection H as <-. discriminate.
  - right. left.
Qed.

(** C4, amended. On the browse path the curated fallback is used exactly
    when the listing step fails with an error whose message does not
    contain "Rate limited", or the listing request succeeds and yields no
    identifier (the code then raises "No artworks found" itself); on the
    search path it is never used. *)
Theorem fallback_on_browse_only (b : Browser) (w : World) :
  (fallbackUsed (loadRandomArtworks b w) <->
   (exists e, listingFails b w e /\ includes "Rate limited" (message e) = false)
   \/ listingEmpty b w)
  /\ (forall query, ~ fallbackUsed (searchArtworks b w query)).
Proof.
  split; [| intros query; apply search_never_falls_back].
  rewrite fallbackUsed_loadRandomArtworks. split.
  - intros (e & [Hf | [He _]]%browseTry_inl & Hrl); [left | right]; eauto.
  - intros [(e & Hf & Hrl) | He].
    + exists e. split; [| exact Hrl]. apply browseTry_inl. by left.
    + exists (Error "No artworks found"). split; [| reflexivity].
      apply browseTry_inl. by right.
Qed.

Lemma fallback_on_browse_only_witness :
  fallbackUsed (loadRandomArtworks emptyCatalogBrowser (initialWorld 0))
  /\ ~ fallbackUsed (searchArtworks emptyCatalogBrowser (initialWorld 0) "monet").
Proof.
  destruct (fallback_on_browse_only emptyCatalogBrowser (initialWorld 0)) as [Hb Hs].
  split; [| apply Hs].
  apply Hb. right. exists emptyListing, (mkRaw (Some []) None None None None None None None None None).
  split; [reflexivity | split; [reflexivity | right; reflexivity]].
Defined.

(** ** The page: a search without results *)

(** C9. A search whose listing request succeeds with an empty [objectIDs]
    hides the skeletons and shows the no-results message for the query,
    and does nothing else: no error message, no display of records, no load
    of the curated fallback. *)
Theorem empty_search_shows_no_results (b : Browser) (w : World) (query : string)
    (response : Response) (data : RawObject) :
  (makeApiCall (network b) (searchUrl b query) 0 w).1.1 = Returned response ->
  body response = BodyJson data ->
  objectIDs data = Some [] ->
  searchArtworks b w query
  = [ShowLoadingSkeletons; HideLoadingSkeletons; ShowNoResults query]
  /\ ~ fallbackUsed (searchArtworks b w query)
  /\ (forall msg, ShowErrorMessage msg ∉ searchArtworks b w query)
  /\ (forall artworks, DisplayArtworks artworks ∉ searchArtworks b w query).
Proof.
  intros Hcall Hbody Hids.
  assert (Hrun : searchArtworks b w query
                 = [ShowLoadingSkeletons; HideLoadingSkeletons; ShowNoResults query]).
  { unfold searchArtworks, searchTry. rewrite Hcall, Hbody, Hids. reflexivity. }
  rewrite Hrun. unfold fallbackUsed.
  split; [reflexivity |].
  split; [| split; intros x]; intros Hin;
    repeat (inversion Hin as [| ? ? ? Hin']; clear Hin; rename Hin' into Hin).
Qed.

Lemma empty_search_shows_no_results_witness :
  searchArtworks emptyCatalogBrowser (initialWorld 0) "nonexistent-term-xyz"
  = [ShowLoadingSkeletons; HideLoadingSkeletons; ShowNoResults "nonexistent-term-xyz"].
Proof.
  apply (empty_search_shows_no_results emptyCatalogBrowser (initialWorld 0)
           "nonexistent-term-xyz" emptyListing
           (mkRaw (Some []) None None None None None None None None None));
    reflexivity.
Defined.

(** ** The scenarios of the specification, run *)

(** Scenario 1: the 404 of identifier 2 is swallowed; the records of 1 and
    3 are displayed, in that order. *)
Example scenario_one_displays_two_records :
  loadRandomArtworks (isolatedBrowser scenarioOne) (initialWorld 0) =
  [ShowLoadingSkeletons;
   DisplayArtworks
     [Artwork.mk (Some 1) "One" "Unknown Artist" "Metropolitan Museum"
        "https://images.metmuseum.org/full.jpg" None None None;
      Artwork.mk (Some 3) "Three" "Unknown Artist" "Metropolitan Museum"
        "https://images.metmuseum.org/full.jpg" None None None]].
Proof. vm_compute. reflexivity. Qed.

(** Scenario 2: the listing request answers 500; the browse path loads the
    curated identifiers, whose details fail here as well. *)
Example scenario_two_falls_back :
  loadRandomArtworks (isolatedBrowser (fun _ _ => Resolves 0 serverError))
                     (initialWorld 0) =
  [ShowLoadingSkeletons; LoadCuratedArtworks; DisplayArtworks []].
Proof. vm_compute. reflexivity. Qed.

(** A listing request that stays rate limited shows the rate-limit message
    and does not fall back. *)
Example rate_limited_listing_shows_message :
  loadRandomArtworks (isolatedBrowser (fun _ _ => Resolves 0 (tooManyRequests None)))
                     (initialWorld 0) =
  [ShowLoadingSkeletons;
   ShowErrorMessage "API rate limit exceeded. Please wait a moment and try again."].
Proof. vm_compute. reflexivity. Qed.

(** * More of the code: properties *)

(** ** [makeApiCall]: how a request ends *)

(** Induction along the invocations of one logical request. *)
Lemma makeApiCall_invocations (net : Network) (url : string)
    (P : nat -> World -> ApiOutcome * World * list Event -> Prop) :
  (forall n w r w' evs,
      attempt net url n w = (Return r, w', evs) -> P n w (Returned r, w', evs)) ->
  (forall n w e w' evs,
      attempt net url n w = (Throw e, w', evs) -> P n w (Threw e, w', evs)) ->
  (forall n w w' evs,
      attempt net url n w = (Retry, w', evs) -> (n < maxRetries)%nat ->
      P (S n) w' (makeApiCall net url (S n) w') ->
      P n w (after evs (makeApiCall net url (S n) w'))) ->
  forall n w, P n w (makeApiCall net url n w).
Proof.
  intros Hret Hthrow Hretry n.
  remember (maxRetries - n)%nat as k eqn:Hk. revert n Hk.
  induction k as [k IH] using lt_wf_ind. intros n Hk w.
  rewrite makeApiCall_step.
  destruct (attempt net url n w) as [[[r | e |] w'] evs] eqn:Ha.
  - by apply Hret.
  - by apply Hthrow.
  - pose proof (attempt_Retry_lt _ _ _ _ _ _ Ha) as Hlt.
    apply Hretry; [done | done |].
    apply (IH (maxRetries - S n)%nat); [lia | reflexivity].
Qed.

Lemma attempt_Return net url n w r w' evs :
  attempt net url n w = (Return r, w', evs) ->
  exists dt, net url n = Resolves dt r /\ ok r = true /\ status r <> 429.
Proof.
  unfold attempt, tryBlock, on429, catchBlock.
  destruct (waitIfLimited w) as [w1 waited].
  destruct (net url n) as [dt r0 | dt e]; [| by repeat (case_match; simplify_eq/=)].
  destruct (Z.eqb_spec (status r0) 429) as [H429 | H429];
    [by repeat (case_match; simplify_eq/=) |].
  destruct (ok r0) eqn:Hok; simpl; [| by repeat (case_match; simplify_eq/=)].
  intros [= <- <- <-]. eauto.
Qed.

(** X1. A response that [makeApiCall] returns is a successful one: its
    status lies in 200..299, and it is the answer of the network to one of
    the invocations of the request, of retry count at most [maxRetries]
    when the request starts within the budget. *)
Theorem makeApiCall_returns_only_ok (net : Network) (url : string) (n : nat)
    (w : World) (r : Response) :
  (makeApiCall net url n w).1.1 = Returned r ->
  (200 <= status r <= 299)
  /\ exists k dt, (n <= k <= Nat.max n maxRetries)%nat /\ net url k = Resolves dt r.
Proof.
  revert n w.
  apply (makeApiCall_invocations net url
           (fun n w x => x.1.1 = Returned r ->
              (200 <= status r <= 299)
              /\ exists k dt, (n <= k <= Nat.max n maxRetries)%nat /\ net url k = Resolves dt r)).
  - intros n w r0 w' evs Ha [= ->].
    pose proof Ha as Hn.
    apply attempt_Return in Ha as (dt & Hnet & Hok & _).
    unfold ok in Hok. apply andb_true_iff in Hok as [H1 H2].
    split; [lia |]. exists n, dt. split; [lia | done].
  - intros n w e w' evs _ [=].
  - intros n w w' evs _ Hlt IH Hr.
    destruct (makeApiCall net url (S n) w') as [[o w2] evs2]. simpl in *.
    destruct (IH Hr) as (Hst & k & dt & Hk & Hnet).
    split; [done |]. exists k, dt. split; [unfold maxRetries in *; lia | done].
Qed.

Lemma httpErrorMessage_notFound_plain :
  includes "fetch" (httpErrorMessage notFound) = false.
Proof. vm_compute. reflexivity. Qed.

Lemma makeApiCall_returns_only_ok_witness :
  200 <= status okResponse <= 299.
Proof.
  apply (makeApiCall_returns_only_ok (limitedOnce 0 0) "u" 0 (initialWorld 0) okResponse).
  vm_compute. reflexivity.
Defined.

Lemma http_error_fails_at_once_witness :
  makeApiCall (fun _ _ => Resolves 0 notFound) "u" 0 (initialWorld 0) =
  (Threw (Error "HTTP 404: Not Found"), mkWorld 1 None false 0, [EvFetch "u"]).
Proof.
  rewrite (http_error_fails_at_once (fun _ _ => Resolves 0 notFound) "u" 0
             (initialWorld 0) 0 notFound eq_refl);
    [vm_compute; reflexivity | discriminate | reflexivity |
     exact httpErrorMessage_notFound_plain].
Defined.

(** ** [makeApiCall]: the call counter and the clock *)

Lemma waitIfLimited_bookkeeping w :
  apiCallCount (waitIfLimited w).1 = apiCallCount w
  /\ now w <= now (waitIfLimited w).1
  /\ rateLimitResetTime (waitIfLimited w).1 = rateLimitResetTime w.
Proof.
  unfold waitIfLimited. destruct (mustWait w); simpl; repeat split; lia.
Qed.

Lemma attempt_bookkeeping net url n w :
  apiCallCount (attempt net url n w).1.2 = apiCallCount w + 1
  /\ now w <= now (attempt net url n w).1.2.
Proof.
  destruct (waitIfLimited_bookkeeping w) as (Hc & Hn & _).
  unfold attempt, tryBlock, on429, catchBlock.
  destruct (waitIfLimited w) as [w1 waited]. simpl in Hc, Hn.
  destruct (net url n) as [dt r | dt e];
    repeat (case_match; simplify_eq/=); split; lia.
Qed.

(** X3. The call counter counts the fetches: one logical request raises
    [apiCallCount] by exactly the number of fetches it issues, and the
    clock never runs backwards over it. *)
Theorem makeApiCall_counts_its_fetches (net : Network) (url : string) (n : nat)
    (w : World) :
  apiCallCount (makeApiCall net url n w).1.2
  = apiCallCount w + Z.of_nat (fetchCount (makeApiCall net url n w).2)
  /\ now w <= now (makeApiCall net url n w).1.2.
Proof.
  revert n w.
  apply (makeApiCall_invocations net url
           (fun n w x => apiCallCount x.1.2 = apiCallCount w + Z.of_nat (fetchCount x.2)
                         /\ now w <= now x.1.2)).
  - intros n w r w' evs Ha.
    pose proof (attempt_bookkeeping net url n w) as Hb.
    pose proof (attempt_one_fetch net url n w) as Hf.
    rewrite Ha in Hb, Hf. simpl in *. lia.
  - intros n w e w' evs Ha.
    pose proof (attempt_bookkeeping net url n w) as Hb.
    pose proof (attempt_one_fetch net url n w) as Hf.
    rewrite Ha in Hb, Hf. simpl in *. lia.
  - intros n w w' evs Ha _ IH.
    pose proof (attempt_bookkeeping net url n w) as Hb.
    pose proof (attempt_one_fetch net url n w) as Hf.
    rewrite Ha in Hb, Hf.
    rewrite fetchCount_after.
    destruct (makeApiCall net url (S n) w') as [[o w2] evs2]. simpl in *. lia.
Qed.

(** ** [makeApiCall]: requests that never get through *)

Lemma backoff_pos n : 0 < backoff n.
Proof. unfold backoff, baseDelay. pose proof (Z.pow_pos_nonneg 2 (Z.of_nat n)). lia. Qed.

Lemma mustWait_waitIfLimited w : mustWait (waitIfLimited w).1 = false.
Proof.
  unfold waitIfLimited. destruct (mustWait w) eqn:Hm; [| exact Hm].
  reflexivity.
Qed.

(** Once no wait is due, none becomes due while the flag and the reset time
    stay as they are and time moves on. *)
Lemma mustWait_later w w' :
  mustWait w = false ->
  isRateLimited w' = isRateLimited w ->
  rateLimitResetTime w' = rateLimitResetTime w ->
  now w <= now w' ->
  mustWait w' = false.
Proof.
  unfold mustWait. intros Hm -> -> Hnow.
  destruct (isRateLimited w); [| reflexivity]. simpl in *.
  destruct (rateLimitResetTime w) as [[| t] |]; try reflexivity. simpl in *.
  destruct (negb (t =? 0)); [| reflexivity]. simpl in *.
  destruct (Z.ltb_spec (now w) t); [discriminate |].
  destruct (Z.ltb_spec (now w') t); [lia | reflexivity].
Qed.

Lemma waitIfLimited_idle w : mustWait w = false -> waitIfLimited w = (w, []).
Proof. unfold waitIfLimited. by intros ->. Qed.

Lemma attempt_on_reject net url n w dt e :
  net url n = Rejects dt e ->
  attempt net url n w =
  (let w3 := tick dt (countCall (waitIfLimited w).1) in
   let c := catchBlock n e w3 in
   (c.1.1, c.1.2, ((waitIfLimited w).2 ++ [EvFetch url]) ++ c.2)).
Proof.
  intros Hnet. unfold attempt, tryBlock. rewrite Hnet.
  destruct (waitIfLimited w) as [w1 waited]. cbn [fst snd].
  destruct (catchBlock n e (tick dt (countCall w1))) as [[s w2] evs]. reflexivity.
Qed.



(** A 429 answer without a usable [Retry-After] header below the budget:
    the invocation sets the reset time to now plus the backoff, and sleeps
    exactly until then. *)
Lemma on429_backoff r n w :
  truthy (retryAfter r) = false -> (n < maxRetries)%nat ->
  on429 r n w =
  (Retry,
   mkWorld (apiCallCount w) (Some (Num (now w + backoff n))) true (now w + backoff n),
   [EvTimeout (Num (backoff n))]).
Proof.
  intros Hh Hn. unfold on429, resetTimeOn429. cbn [setLimited now]. rewrite Hh.
  apply Nat.ltb_lt in Hn. rewrite Hn.
  pose proof (backoff_pos n).
  unfold sleep, tick, delayMs, setResetTime, setLimited, sub, default.
  cbn [rateLimitResetTime now apiCallCount isRateLimited id].
  replace (now w + backoff n - now w) with (backoff n) by lia.
  same_run.
Qed.

Lemma on429_exhausted r n w :
  (maxRetries <= n)%nat ->
  on429 r n w =
  (Throw rateLimitError,
   setResetTime (resetTimeOn429 r n (setLimited true w)) (setLimited true w), []).
Proof.
  intros Hn. unfold on429. apply Nat.ltb_ge in Hn. by rewrite Hn.
Qed.

Lemma on429_retries r n w :
  (n < maxRetries)%nat -> (on429 r n w).1.1 = Retry.
Proof. intros Hn. unfold on429. apply Nat.ltb_lt in Hn. by rewrite Hn. Qed.

(** X5. A request whose every fetch is answered 429 gives up with the
    error "Rate limited: Maximum retries exceeded" after exactly four
    fetches, leaving the limited flag set, whatever the headers say. *)
Theorem always_limited_gives_up (net : Network) (url : string) (w : World)
    (lat : nat -> Z) (resp : nat -> Response) :
  answeredBy net url lat resp ->
  (forall n, status (resp n) = 429) ->
  (makeApiCall net url 0 w).1.1 = Threw rateLimitError
  /\ fetchCount (makeApiCall net url 0 w).2 = 4%nat
  /\ isRateLimited (makeApiCall net url 0 w).1.2 = true.
Proof.
  intros Hnet Hst.
  assert (Hstep : forall n w0, (n < maxRetries)%nat ->
             exists w1 evs, attempt net url n w0 = (Retry, w1, evs)).
  { intros n w0 Hn. rewrite (attempt_on_429 net url n w0 _ _ (Hnet n) (Hst n)).
    cbn zeta. rewrite on429_retries by done. eauto. }
  assert (Hlast : forall w0, exists w1 evs,
             attempt net url 3 w0 = (Throw rateLimitError, w1, evs)
             /\ isRateLimited w1 = true).
  { intros w0. rewrite (attempt_on_429 net url 3 w0 _ _ (Hnet 3%nat) (Hst 3%nat)).
    cbn zeta. rewrite on429_exhausted by (unfold maxRetries; lia).
    eexists _, _. split; reflexivity. }
  pose proof (fun n w0 => attempt_one_fetch net url n w0) as Hone.
  rewrite makeApiCall_step.
  destruct (Hstep 0%nat w ltac:(unfold maxRetries; lia)) as (w1 & e1 & H1).
  pose proof (Hone 0%nat w) as F1. rewrite H1 in F1 |- *.
  rewrite makeApiCall_step.
  destruct (Hstep 1%nat w1 ltac:(unfold maxRetries; lia)) as (w2 & e2 & H2).
  pose proof (Hone 1%nat w1) as F2. rewrite H2 in F2 |- *.
  rewrite makeApiCall_step.
  destruct (Hstep 2%nat w2 ltac:(unfold maxRetries; lia)) as (w3 & e3 & H3).
  pose proof (Hone 2%nat w2) as F3. rewrite H3 in F3 |- *.
  rewrite makeApiCall_step.
  destruct (Hlast w3) as (w4 & e4 & H4 & Hflag).
  pose proof (Hone 3%nat w3) as F4. rewrite H4 in F4 |- *.
  cbn [after fst snd] in *. rewrite !fetchCount_app, F1, F2, F3, F4. auto.
Qed.

Lemma always_limited_gives_up_witness :
  (makeApiCall (fun _ _ => Resolves 0 (tooManyRequests (Some "1"))) "u" 0
     (initialWorld 0)).1.1 = Threw rateLimitError.
Proof.
  apply (always_limited_gives_up _ "u" (initialWorld 0) (fun _ => 0)
           (fun _ => tooManyRequests (Some "1")));
    intros n; reflexivity.
Defined.

(** An invocation first waits, if a wait is due, and then runs as if
    entered in the world after the wait. *)
Lemma attempt_waits_first net url n w :
  attempt net url n w =
  (let x := attempt net url n (waitIfLimited w).1 in
   (x.1.1, x.1.2, (waitIfLimited w).2 ++ x.2)).
Proof.
  cbn zeta. unfold attempt, tryBlock.
  rewrite (waitIfLimited_idle (waitIfLimited w).1 (mustWait_waitIfLimited w)).
  destruct (waitIfLimited w) as [w1 waited]. cbn [fst snd app].
  destruct (net url n) as [dt r | dt e].
  - destruct (status r =? 429).
    + destruct (on429 r n (tick dt (countCall w1))) as [[[r0 | e0 |] w4] evs];
        try reflexivity.
      destruct (catchBlock n e0 w4) as [[s w5] evs5]. cbn [fst snd].
      by rewrite app_assoc.
    + destruct (negb (ok r)); [| reflexivity].
      destruct (catchBlock n _ _) as [[s w5] evs5]. cbn [fst snd].
      by rewrite <- app_assoc.
  - destruct (catchBlock n e _) as [[s w5] evs5]. cbn [fst snd].
    by rewrite <- app_assoc.
Qed.

Lemma attempt_idle_429_backoff net url n w dt r :
  mustWait w = false -> net url n = Resolves dt r -> status r = 429 ->
  truthy (retryAfter r) = false -> (n < maxRetries)%nat ->
  exists w', attempt net url n w
             = (Retry, w', [EvFetch url; EvTimeout (Num (backoff n))])
             /\ mustWait w' = false.
Proof.
  intros Hm Hnet Hst Hh Hn.
  rewrite (attempt_on_429 net url n w dt r Hnet Hst), (waitIfLimited_idle w Hm).
  cbn zeta. cbn [fst snd app]. rewrite (on429_backoff r n _ Hh Hn).
  cbn [fst snd app]. eexists. split; [reflexivity |].
  unfold mustWait, ltb. cbn [isRateLimited rateLimitResetTime now andb].
  match goal with |- context [(?a <? ?b)] =>
    destruct (Z.ltb_spec a b) as [Hlt |]; [lia |] end.
  apply andb_false_r.
Qed.

Lemma attempt_idle_429_last net url w dt r :
  mustWait w = false -> net url 3%nat = Resolves dt r -> status r = 429 ->
  exists w', attempt net url 3 w = (Throw rateLimitError, w', [EvFetch url]).
Proof.
  intros Hm Hnet Hst.
  rewrite (attempt_on_429 net url 3 w dt r Hnet Hst), (waitIfLimited_idle w Hm).
  cbn zeta. cbn [fst snd app].
  rewrite on429_exhausted by (unfold maxRetries; lia). eauto.
Qed.

(** X6. Exponential backoff after 429: when every fetch of a request is
    answered 429 without a [Retry-After] header, the request waits exactly
    1000, 2000 and 4000 ms between its four fetches (after the wait that
    may be due on entry) and then throws the rate-limit error. *)
Theorem always_limited_backs_off (net : Network) (url : string) (w : World)
    (lat : nat -> Z) (resp : nat -> Response) :
  answeredBy net url lat resp ->
  (forall n, status (resp n) = 429) ->
  (forall n, truthy (retryAfter (resp n)) = false) ->
  (makeApiCall net url 0 w).1.1 = Threw rateLimitError
  /\ (makeApiCall net url 0 w).2 = (waitIfLimited w).2 ++ backoffTrace url.
Proof.
  intros Hnet Hst Hh.
  pose proof (mustWait_waitIfLimited w) as Hm0.
  rewrite makeApiCall_step, attempt_waits_first. cbn zeta.
  destruct (attempt_idle_429_backoff net url 0 _ _ _ Hm0 (Hnet 0%nat) (Hst 0%nat)
              (Hh 0%nat) ltac:(unfold maxRetries; lia)) as (w1 & -> & Hm1).
  cbn [fst snd]. rewrite makeApiCall_step.
  destruct (attempt_idle_429_backoff net url 1 _ _ _ Hm1 (Hnet 1%nat) (Hst 1%nat)
              (Hh 1%nat) ltac:(unfold maxRetries; lia)) as (w2 & -> & Hm2).
  rewrite makeApiCall_step.
  destruct (attempt_idle_429_backoff net url 2 _ _ _ Hm2 (Hnet 2%nat) (Hst 2%nat)
              (Hh 2%nat) ltac:(unfold maxRetries; lia)) as (w3 & -> & Hm3).
  rewrite makeApiCall_step.
  destruct (attempt_idle_429_last net url _ _ _ Hm3 (Hnet 3%nat) (Hst 3%nat))
    as (w4 & ->).
  cbn [after fst snd]. split; [reflexivity |].
  rewrite <- !app_assoc. reflexivity.
Qed.

Lemma always_limited_backs_off_witness :
  (makeApiCall (fun _ _ => Resolves 0 (tooManyRequests None)) "u" 0
     (limitedUntil5000 1000)).2
  = [EvTimeout (Num 4000); EvFetch "u"; EvTimeout (Num 1000); EvFetch "u";
     EvTimeout (Num 2000); EvFetch "u"; EvTimeout (Num 4000); EvFetch "u"].
Proof.
  apply (always_limited_backs_off _ "u" (limitedUntil5000 1000) (fun _ => 0)
           (fun _ => tooManyRequests None));
    intros n; reflexivity.
Defined.

Lemma attempt_idle_reject_retry net url n w dt e :
  mustWait w = false -> net url n = Rejects dt e ->
  looksLikeNetworkError e = true -> (n < maxRetries)%nat ->
  exists w', attempt net url n w
             = (Retry, w', [EvFetch url; EvTimeout (Num (backoff n))])
             /\ mustWait w' = false.
Proof.
  intros Hm Hnet He Hn.
  rewrite (attempt_on_reject net url n w dt e Hnet), (waitIfLimited_idle w Hm).
  cbn zeta. unfold catchBlock. apply Nat.ltb_lt in Hn. rewrite Hn, He.
  cbn [andb fst snd app]. eexists. split; [reflexivity |].
  apply (mustWait_later w); [done | reflexivity | reflexivity |].
  unfold sleep, tick, delayMs, countCall. cbn [now]. lia.
Qed.

Lemma attempt_idle_reject_last net url w dt e :
  mustWait w = false -> net url 3%nat = Rejects dt e ->
  exists w', attempt net url 3 w = (Throw e, w', [EvFetch url]).
Proof.
  intros Hm Hnet.
  rewrite (attempt_on_reject net url 3 w dt e Hnet), (waitIfLimited_idle w Hm).
  cbn zeta. unfold catchBlock. cbn [Nat.ltb Nat.leb maxRetries andb fst snd app].
  eauto.
Qed.

(** X7. Exponential backoff after network errors: when every fetch of a
    request is rejected with an error that looks like a network error
    (named TypeError, or mentioning "fetch"), the request waits exactly
    1000, 2000 and 4000 ms between its four fetches and then rethrows the
    error of the fourth. *)
Theorem unreachable_backs_off (net : Network) (url : string) (w : World)
    (lat : nat -> Z) (err : nat -> JsError) :
  rejectedBy net url lat err ->
  (forall n, looksLikeNetworkError (err n) = true) ->
  (makeApiCall net url 0 w).1.1 = Threw (err 3%nat)
  /\ (makeApiCall net url 0 w).2 = (waitIfLimited w).2 ++ backoffTrace url.
Proof.
  intros Hnet He.
  pose proof (mustWait_waitIfLimited w) as Hm0.
  rewrite makeApiCall_step, attempt_waits_first. cbn zeta.
  destruct (attempt_idle_reject_retry net url 0 _ _ _ Hm0 (Hnet 0%nat) (He 0%nat)
              ltac:(unfold maxRetries; lia)) as (w1 & -> & Hm1).
  cbn [fst snd]. rewrite makeApiCall_step.
  destruct (attempt_idle_reject_retry net url 1 _ _ _ Hm1 (Hnet 1%nat) (He 1%nat)
              ltac:(unfold maxRetries; lia)) as (w2 & -> & Hm2).
  rewrite makeApiCall_step.
  destruct (attempt_idle_reject_retry net url 2 _ _ _ Hm2 (Hnet 2%nat) (He 2%nat)
              ltac:(unfold maxRetries; lia)) as (w3 & -> & Hm3).
  rewrite makeApiCall_step.
  destruct (attempt_idle_reject_last net url _ _ _ Hm3 (Hnet 3%nat)) as (w4 & ->).
  cbn [after fst snd]. split; [reflexivity |].
  rewrite <- !app_assoc. reflexivity.
Qed.

Lemma unreachable_backs_off_witness :
  makeApiCall offline "u" 0 (initialWorld 0) =
  (Threw (mkError "TypeError" "Failed to fetch"), mkWorld 4 None false 7000,
   backoffTrace "u").
Proof.
  destruct (unreachable_backs_off offline "u" (initialWorld 0) (fun _ => 0)
              (fun _ => mkError "TypeError" "Failed to fetch")) as [Ho Hevs];
    [intros n; reflexivity | intros n; reflexivity |].
  vm_compute. reflexivity.
Defined.

(** ** [makeApiCall]: what it leaves alone *)

Lemma attempt_without_429 net url n w :
  (forall dt r, net url n = Resolves dt r -> status r <> 429) ->
  rateLimitResetTime (attempt net url n w).1.2 = rateLimitResetTime w
  /\ (isRateLimited (attempt net url n w).1.2 = true -> isRateLimited w = true).
Proof.
  intros Hno. unfold attempt, tryBlock, catchBlock, waitIfLimited.
  destruct (net url n) as [dt r | dt e].
  - specialize (Hno dt r eq_refl).
    destruct (Z.eqb_spec (status r) 429) as [| _]; [contradiction |].
    destruct (mustWait w) eqn:Hm;
      repeat (case_match; simplify_eq/=); split; try done;
      unfold mustWait in Hm; by destruct (isRateLimited w).
  - destruct (mustWait w) eqn:Hm;
      repeat (case_match; simplify_eq/=); split; try done;
      unfold mustWait in Hm; by destruct (isRateLimited w).
Qed.

(** X8. Only a 429 answer touches the rate-limit state: over a request
    none of whose fetches is answered 429, the reset time stays as it was
    and the limited flag is never raised (it can only be cleared, by the
    wait on entry). *)
Theorem without_429_state_is_kept (net : Network) (url : string) (n : nat)
    (w : World) :
  (forall k dt r, net url k = Resolves dt r -> status r <> 429) ->
  rateLimitResetTime (makeApiCall net url n w).1.2 = rateLimitResetTime w
  /\ (isRateLimited (makeApiCall net url n w).1.2 = true -> isRateLimited w = true).
Proof.
  intros Hno. revert n w.
  apply (makeApiCall_invocations net url
           (fun n w x => rateLimitResetTime x.1.2 = rateLimitResetTime w
                         /\ (isRateLimited x.1.2 = true -> isRateLimited w = true))).
  - intros n w r w' evs Ha.
    pose proof (attempt_without_429 net url n w (Hno n)) as H. by rewrite Ha in H.
  - intros n w e w' evs Ha.
    pose proof (attempt_without_429 net url n w (Hno n)) as H. by rewrite Ha in H.
  - intros n w w' evs Ha _ [IH1 IH2].
    pose proof (attempt_without_429 net url n w (Hno n)) as [H1 H2].
    rewrite Ha in H1, H2. cbn [fst snd] in H1, H2.
    destruct (makeApiCall net url (S n) w') as [[o w2] evs2]. cbn [after fst snd] in *.
    split; [congruence | auto].
Qed.

Lemma without_429_state_is_kept_witness :
  rateLimitResetTime (makeApiCall offline "u" 0 (limitedUntil5000 6000)).1.2
  = Some (Num 5000).
Proof.
  apply (without_429_state_is_kept offline "u" 0 (limitedUntil5000 6000)).
  intros k dt r. discriminate.
Defined.

(** ** [makeApiCall]: the low-quota warning *)

Lemma attempt_warning net url n w s :
  EvWarning s ∈ (attempt net url n w).2 <->
  exists r, (attempt net url n w).1.1 = Return r
            /\ rateLimitRemaining r = Some s
            /\ ltb (parseInt s) (Num 10) = true.
Proof.
  unfold attempt, tryBlock, on429, catchBlock, waitIfLimited, advisory.
  split.
  - intros Hin.
    repeat (case_match; simplify_eq/=);
      repeat (apply elem_of_app in Hin as [Hin | Hin]
              || (apply elem_of_cons in Hin as [Hin | Hin]; [discriminate Hin |])
              || (apply elem_of_cons in Hin as [Hin | Hin]; [injection Hin as -> |])
              || apply elem_of_nil in Hin as []);
      try discriminate; eauto.
  - intros (r & Hr & Hs & Hlt).
    repeat (case_match; simplify_eq/=);
      repeat (rewrite elem_of_app || rewrite elem_of_cons); auto.
Qed.

(** X9. The low-quota warning is shown exactly for a returned response
    whose [X-RateLimit-Remaining] header reads as a number below 10:
    requests that fail, and answers that are retried, never warn. *)
Theorem warning_only_on_low_quota (net : Network) (url : string) (n : nat)
    (w : World) (s : string) :
  EvWarning s ∈ (makeApiCall net url n w).2 <->
  exists r, (makeApiCall net url n w).1.1 = Returned r
            /\ rateLimitRemaining r = Some s
            /\ ltb (parseInt s) (Num 10) = true.
Proof.
  revert n w.
  apply (makeApiCall_invocations net url
           (fun n w x => EvWarning s ∈ x.2 <->
              exists r, x.1.1 = Returned r /\ rateLimitRemaining r = Some s
                        /\ ltb (parseInt s) (Num 10) = true)).
  - intros n w r w' evs Ha.
    pose proof (attempt_warning net url n w s) as H. rewrite Ha in H.
    cbn [fst snd] in *. rewrite H. split.
    + intros (r0 & [= <-] & ?). eauto.
    + intros (r0 & [= <-] & ?). eauto.
  - intros n w e w' evs Ha.
    pose proof (attempt_warning net url n w s) as H. rewrite Ha in H.
    cbn [fst snd] in *. rewrite H. split.
    + intros (r0 & [=] & _).
    + intros (r0 & [=] & _).
  - intros n w w' evs Ha _ IH.
    pose proof (attempt_warning net url n w s) as H. rewrite Ha in H.
    destruct (makeApiCall net url (S n) w') as [[o w2] evs2].
    cbn [after fst snd] in *. rewrite elem_of_app, IH, H. split.
    + intros [(r0 & [=] & _) | Hr]; exact Hr.
    + intros Hr. by right.
Qed.

Lemma warning_only_on_low_quota_witness :
  EvWarning "3" ∈ (makeApiCall (fun _ _ => Resolves 0 lowQuota) "u" 0 (initialWorld 0)).2.
Proof.
  apply (warning_only_on_low_quota (fun _ _ => Resolves 0 lowQuota) "u" 0
           (initialWorld 0) "3").
  exists lowQuota. split; [reflexivity | split; reflexivity].
Defined.

(** ** [getApiStatus] and the wait on entry *)

Lemma mustWait_spec w :
  mustWait w = true <->
  isRateLimited w = true
  /\ exists t, rateLimitResetTime w = Some (Num t) /\ t <> 0 /\ now w < t.
Proof.
  unfold mustWait. destruct (isRateLimited w); cbn [andb].
  - destruct (rateLimitResetTime w) as [[| t] |]; cbn [truthyNum ltb].
    + split; [discriminate | intros [_ (t & [=] & _)]].
    + destruct (Z.eqb_spec t 0) as [-> | Hne]; cbn [negb andb].
      * split; [discriminate | intros [_ (t & [= <-] & ? & _)]; done].
      * destruct (Z.ltb_spec (now w) t).
        -- split; [| done]. intros _. split; [done |]. by exists t.
        -- split; [discriminate | intros [_ (t' & [= <-] & _ & ?)]; lia].
    + split; [discriminate | intros [_ (t & [=] & _)]].
  - split; [discriminate | intros [[=] _]].
Qed.

(** X10. The time until reset that [getApiStatus] reports is a
    non-negative number, never [NaN]; a request waits on entry exactly
    when the limited flag is set and that time is positive, and it then
    waits for exactly that time. *)
Theorem timeUntilReset_is_the_wait (w : World) :
  exists ms, ApiStatus.timeUntilReset (getApiStatus w) = Num ms /\ 0 <= ms
     /\ (mustWait w = true <-> isRateLimited w = true /\ 0 < ms)
     /\ (mustWait w = true ->
         waitIfLimited w =
         (mkWorld (apiCallCount w) (rateLimitResetTime w) false (now w + ms),
          [EvTimeout (Num ms)])).
Proof.
  setoid_rewrite mustWait_spec. unfold getApiStatus. cbn [ApiStatus.timeUntilReset].
  destruct (rateLimitResetTime w) as [[| t] |] eqn:Hr; cbn [truthyNum].
  - exists 0. split; [done |]. split; [done |]. split.
    + split; [intros [_ (t & [=] & _)] | intros [_ ?]; lia].
    + intros [_ (t & [=] & _)].
  - destruct (Z.eqb_spec t 0) as [-> | Hne]; cbn [negb].
    + exists 0. split; [done |]. split; [done |]. split.
      * split; [intros [_ (t & [= <-] & ? & _)]; done | intros [_ ?]; lia].
      * intros [_ (t & [= <-] & ? & _)]. done.
    + exists (Z.max 0 (t - now w)). cbn [max0 sub].
      split; [done |]. split; [lia |]. split.
      * split.
        -- intros [Hl (t' & [= <-] & _ & Hlt)]. split; [done | lia].
        -- intros [Hl Hpos]. split; [done |]. exists t. split; [done |]. lia.
      * intros [Hl (t' & [= <-] & _ & Hlt)].
        rewrite (waitIfLimited_pending w t Hl Hr Hne Hlt).
        replace (Z.max 0 (t - now w)) with (t - now w) by lia.
        same_run.
  - exists 0. split; [done |]. split; [done |]. split.
    + split; [intros [_ (t & [=] & _)] | intros [_ ?]; lia].
    + intros [_ (t & [=] & _)].
Qed.

Lemma timeUntilReset_is_the_wait_witness :
  ApiStatus.timeUntilReset (getApiStatus (limitedUntil5000 1000)) = Num 4000
  /\ waitIfLimited (limitedUntil5000 1000)
     = (mkWorld 7 (Some (Num 5000)) false 5000, [EvTimeout (Num 4000)]).
Proof.
  destruct (timeUntilReset_is_the_wait (limitedUntil5000 1000))
    as (ms & Hms & _ & _ & Hwait).
  vm_compute in Hms. injection Hms as <-.
  split; [reflexivity |]. apply Hwait. reflexivity.
Defined.

(** ** [loadArtworkDetails]: requests, batches and delays *)

(** Mapping a function of position and identifier over the batches is
    mapping it over the input. *)
Lemma batches_cover_input {B} (f : nat -> Z -> B) (ids : list Z) fuel : forall i,
  (length ids - i <= fuel)%nat ->
  flat_map (fun j => imap (fun k id => f (j + k)%nat id) (take batchSize (drop j ids)))
           (startsFrom fuel i (length ids))
  = imap (fun k id => f (i + k)%nat id) (drop i ids).
Proof.
  induction fuel as [| fuel IH]; intros i Hfuel; simpl.
  - rewrite drop_ge by lia. reflexivity.
  - destruct (Nat.ltb_spec i (length ids)) as [Hlt | Hge];
      [| rewrite drop_ge by lia; reflexivity].
    simpl. rewrite IH by (unfold batchSize; lia).
    rewrite <- (take_drop batchSize (drop i ids)) at 2.
    rewrite imap_app, drop_drop. f_equal.
    destruct (Nat.le_gt_cases (i + batchSize) (length ids)) as [Hle | Hgt].
    + rewrite length_take_le by (rewrite length_drop; lia).
      apply imap_ext. intros k id _. f_equal. lia.
    + rewrite !(drop_ge ids (i + batchSize)) by lia. reflexivity.
Qed.

Lemma omap_flat_map {A B C} (f : B -> option C) (g : A -> list B) (l : list A) :
  omap f (flat_map g l) = flat_map (fun x => omap f (g x)) l.
Proof. induction l as [| x l IH]; simpl; [done |]. by rewrite omap_app, IH. Qed.

Lemma flat_map_ext_in {A B} (f g : A -> list B) (l : list A) :
  (forall x, x ∈ l -> f x = g x) -> flat_map f l = flat_map g l.
Proof.
  induction l as [| x l IH]; intros H; simpl; [done |].
  rewrite H by left. rewrite IH; [done |]. intros y Hy. apply H. by right.
Qed.

Lemma dispatches_of_batch b ids i :
  omap dispatchOf (runBatch b ids i).2
  = imap (fun k id => ((i + k)%nat, id)) (take batchSize (drop i ids)).
Proof.
  rewrite runBatch_events. unfold batchEvents. rewrite !omap_app.
  assert (Hd : forall l : list (nat * Z),
             omap dispatchOf (map (fun x => EvDispatch x.1 x.2) l) = l).
  { induction l as [| [p id] l IH]; [done |]. simpl. f_equal. exact IH. }
  assert (Hs : forall l : list (nat * Z),
             omap dispatchOf (map (fun x => EvSettled x.1 x.2) l) = []).
  { induction l as [| [p id] l IH]; simpl; done. }
  rewrite Hd, Hs. unfold positioned.
  destruct (i + batchSize <? length ids)%nat; simpl; by rewrite ?app_nil_r.
Qed.

(** X11. Every identifier of the input is requested exactly once, in
    input order: the requests that the trace of the loader starts are the
    identifiers of the input with their positions, from first to last. *)
Theorem loader_requests_each_id_once (b : Browser) (ids : list Z) :
  omap dispatchOf (loadArtworkDetails b ids).2 = imap (fun p id => (p, id)) ids.
Proof.
  rewrite loadArtworkDetails_batches. cbn [snd]. rewrite omap_flat_map.
  rewrite (flat_map_ext_in _
             (fun j => imap (fun k id => ((j + k)%nat, id))
                         (take batchSize (drop j ids))))
    by (intros j _; apply dispatches_of_batch).
  unfold batchStarts.
  rewrite (batches_cover_input (fun p id => (p, id)) ids (length ids) 0) by lia.
  by rewrite drop_0.
Qed.

Lemma startsFrom_length fuel n : forall i,
  (n - i <= fuel)%nat ->
  length (startsFrom fuel i n) = ((n - i + 2) / 3)%nat.
Proof.
  induction fuel as [| fuel IH]; intros i Hfuel; cbn [startsFrom].
  - replace (n - i)%nat with 0%nat by lia. reflexivity.
  - destruct (Nat.ltb_spec i n) as [Hlt | Hge].
    + cbn [length]. rewrite IH by (unfold batchSize; lia). unfold batchSize.
      pose proof (Nat.div_mod_eq (n - (i + 3) + 2) 3).
      pose proof (Nat.mod_upper_bound (n - (i + 3) + 2) 3 ltac:(lia)).
      pose proof (Nat.div_mod_eq (n - i + 2) 3).
      pose proof (Nat.mod_upper_bound (n - i + 2) 3 ltac:(lia)). lia.
    + replace (n - i)%nat with 0%nat by lia. reflexivity.
Qed.

Lemma paces_of_batches b ids fuel : forall i,
  (length ids - i <= fuel)%nat ->
  omap paceOf (flat_map (fun j => (runBatch b ids j).2)
                        (startsFrom fuel i (length ids)))
  = replicate (length (startsFrom fuel i (length ids)) - 1) 500.
Proof.
  assert (Hb : forall i,
             omap paceOf (runBatch b ids i).2
             = if (i + batchSize <? length ids)%nat then [500] else []).
  { intros i. rewrite runBatch_events. unfold batchEvents. rewrite !omap_app.
    assert (Hd : forall l : list (nat * Z),
               omap paceOf (map (fun x => EvDispatch x.1 x.2) l) = []).
    { induction l as [| [p id] l IH]; simpl; done. }
    assert (Hs : forall l : list (nat * Z),
               omap paceOf (map (fun x => EvSettled x.1 x.2) l) = []).
    { induction l as [| [p id] l IH]; simpl; done. }
    rewrite Hd, Hs. by destruct (i + batchSize <? length ids)%nat. }
  induction fuel as [| fuel IH]; intros i Hfuel; cbn [startsFrom]; [done |].
  destruct (Nat.ltb_spec i (length ids)) as [Hlt | Hge]; [| done].
  cbn [flat_map length]. rewrite omap_app, Hb, IH by (unfold batchSize; lia).
  rewrite Nat.sub_succ, Nat.sub_0_r.
  destruct (Nat.ltb_spec (i + batchSize) (length ids)) as [Hmore | Hlast].
  - destruct fuel as [| fuel]; [unfold batchSize in *; lia |]. cbn [startsFrom].
    destruct (Nat.ltb_spec (i + batchSize) (length ids)); [| lia].
    cbn [length]. by rewrite Nat.sub_succ, Nat.sub_0_r.
  - destruct fuel as [| fuel]; [done |]. cbn [startsFrom].
    destruct (Nat.ltb_spec (i + batchSize) (length ids)); [lia | done].
Qed.

(** X12. An input of [n] identifiers is loaded in [ceil(n / 3)] batches,
    and the loader sleeps 500 ms once between two consecutive batches:
    one delay fewer than there are batches, none for an empty input and
    none after the last batch. *)
Theorem loader_batches_and_delays (b : Browser) (ids : list Z) :
  length (batchStarts (length ids)) = ((length ids + 2) / 3)%nat
  /\ omap paceOf (loadArtworkDetails b ids).2
     = replicate ((length ids + 2) / 3 - 1) 500.
Proof.
  assert (Hlen : length (batchStarts (length ids)) = ((length ids + 2) / 3)%nat).
  { unfold batchStarts. rewrite startsFrom_length by lia. by rewrite Nat.sub_0_r. }
  split; [exact Hlen |].
  rewrite loadArtworkDetails_batches. cbn [snd]. unfold batchStarts in *.
  rewrite paces_of_batches by lia. by rewrite Hlen.
Qed.

(** Where an element of a concatenation sits, with what comes after it. *)
Lemma split_app_cons_post {A} (l1 l2 pre post : list A) x :
  l1 ++ l2 = pre ++ x :: post ->
  (exists post1, l1 = pre ++ x :: post1 /\ post = post1 ++ l2)
  \/ (exists pre', pre = l1 ++ pre' /\ l2 = pre' ++ x :: post).
Proof.
  revert pre. induction l1 as [| y l1 IH]; intros pre Heq.
  - right. exists pre. auto.
  - destruct pre as [| z pre]; simplify_eq/=.
    + left. by exists l1.
    + destruct (IH pre ltac:(done)) as [(post1 & -> & ->) | (pre' & -> & ->)].
      * left. by exists post1.
      * right. by exists pre'.
Qed.

Lemma started_in_batch_settles b ids i pre p id post :
  everyPromiseSettles b ->
  (runBatch b ids i).2 = pre ++ EvDispatch p id :: post ->
  EvSettled p id ∈ post.
Proof.
  intros Hperm. rewrite runBatch_events. unfold batchEvents.
  rewrite <- app_assoc. intros Heq.
  apply split_app_cons_post in Heq as [(post1 & Hd & ->) | (pre' & _ & Hrest)].
  - assert (Hin : (p, id) ∈ positioned i (take batchSize (drop i ids))).
    { assert (Hev : EvDispatch p id ∈
                map (fun x => EvDispatch x.1 x.2)
                    (positioned i (take batchSize (drop i ids)))).
      { rewrite Hd. apply elem_of_app. right. left. }
      apply list_elem_of_fmap in Hev as ([p' id'] & [= -> ->] & Hx). exact Hx. }
    rewrite !elem_of_app. right. left.
    apply list_elem_of_fmap. exists (p, id). split; [reflexivity |].
    by rewrite (Hperm i _).
  - assert (Hev : EvDispatch p id ∈
              map (fun x => EvSettled x.1 x.2)
                  (settleOrder b i (positioned i (take batchSize (drop i ids))))
              ++ (if (i + batchSize <? length ids)%nat then [EvPace 500] else [])).
    { rewrite Hrest. apply elem_of_app. right. left. }
    apply elem_of_app in Hev as [Hev | Hev].
    + apply list_elem_of_fmap in Hev as (x & [=] & _).
    + destruct (i + batchSize <? length ids)%nat;
        inversion Hev as [| ? ? ? Hnil]; inversion Hnil.
Qed.

Lemma started_then_settled_batches b ids (starts : list nat) :
  everyPromiseSettles b ->
  startedThenSettled (flat_map (fun j => (runBatch b ids j).2) starts).
Proof.
  intros Hperm. induction starts as [| j starts IH];
    intros pre p id post Heq; simpl in Heq.
  - by destruct pre.
  - apply split_app_cons_post in Heq as [(post1 & Hb & ->) | (pre' & -> & Hrest)].
    + apply elem_of_app. left.
      by apply (started_in_batch_settles b ids j pre p id post1).
    + by apply (IH pre' p id post).
Qed.

(** X13. For every input, not only for twelve identifiers: every promise
    settling, each request that the loader starts settles later in the
    trace, and no request is started before every request of every
    earlier batch has settled. *)
Theorem loader_batches_are_sequential (b : Browser) (ids : list Z) :
  everyPromiseSettles b ->
  startedThenSettled (loadArtworkDetails b ids).2
  /\ settledBeforeLaterBatches ids (loadArtworkDetails b ids).2.
Proof.
  intros Hperm. rewrite loadArtworkDetails_batches. cbn [snd]. split.
  - by apply started_then_settled_batches.
  - intros pre q idq post p idp Htr Hp Hpq.
    apply (batches_barrier b ids (length ids) Hperm 0%nat pre q idq post p idp);
      [reflexivity | exact Htr | exact Hp | lia | exact Hpq].
Qed.

Lemma loader_batches_are_sequential_witness :
  settledBeforeLaterBatches [1; 2; 3; 4; 5]
    (loadArtworkDetails quietBrowser [1; 2; 3; 4; 5]).2.
Proof.
  apply (loader_batches_are_sequential quietBrowser [1; 2; 3; 4; 5]).
  intros i l. simpl. apply reverse_Permutation.
Defined.

(** ** The page: what it displays *)


(** The three ways a run of the browse path can go. *)
Lemma loadRandomArtworks_cases b w :
  (exists ids, loadRandomArtworks b w
               = [ShowLoadingSkeletons;
                  DisplayArtworks (loadArtworkDetails b (take 12 ids)).1])
  \/ (exists msg, loadRandomArtworks b w
                  = [ShowLoadingSkeletons; ShowErrorMessage msg])
  \/ loadRandomArtworks b w
     = [ShowLoadingSkeletons; LoadCuratedArtworks;
        DisplayArtworks (loadArtworkDetails b curatedIds).1].
Proof.
  unfold loadRandomArtworks.
  destruct (browseTry b w) as [e | evs] eqn:Htry.
  - destruct (includes "Rate limited" (message e)); [right; left; eauto |].
    right. right. reflexivity.
  - left. unfold browseTry in Htry.
    destruct ((makeApiCall (network b) (MET_API_BASE +:+ "/objects") 0 w).1.1)
      as [r | e]; [| discriminate].
    destruct (body r) as [e | data]; [discriminate |].
    destruct (objectIDs data) as [[| x rest] |]; try discriminate.
    injection Htry as <-. exists (shuffle b (x :: rest)). reflexivity.
Qed.

(** The three ways a run of the search path can go. *)
Lemma searchArtworks_cases b w query :
  (exists ids, searchArtworks b w query
               = [ShowLoadingSkeletons;
                  DisplayArtworks (loadArtworkDetails b (take 12 ids)).1])
  \/ (exists msg, searchArtworks b w query
                  = [ShowLoadingSkeletons; ShowErrorMessage msg])
  \/ searchArtworks b w query
     = [ShowLoadingSkeletons; HideLoadingSkeletons; ShowNoResults query].
Proof.
  unfold searchArtworks.
  destruct (searchTry b w query) as [e | evs] eqn:Htry.
  - right. left. destruct (includes "Rate limited" (message e)); eauto.
  - unfold searchTry in Htry.
    destruct ((makeApiCall (network b) (searchUrl b query) 0 w).1.1) as [r | e];
      [| discriminate].
    destruct (body r) as [e | data]; [discriminate |].
    destruct (objectIDs data) as [[| x rest] |]; injection Htry as <-.
    + right. right. reflexivity.
    + left. exists (x :: rest). reflexivity.
    + right. right. reflexivity.
Qed.




(** X15. Every run of the browse path and of the search path shows the
    skeletons first and ends with exactly one call that takes the page out
    of the loading state (a display of records, the no-results message or
    an error message), which is its last event. *)
Theorem every_run_ends_loading (b : Browser) (w : World) (query : string) :
  forall evs, evs = loadRandomArtworks b w \/ evs = searchArtworks b w query ->
  head evs = Some ShowLoadingSkeletons
  /\ length (List.filter isTerminal evs) = 1%nat
  /\ exists ev, last evs = Some ev /\ isTerminal ev = true.
Proof.
  intros evs [-> | ->].
  - destruct (loadRandomArtworks_cases b w) as [(ids & ->) | [(msg & ->) | ->]];
      (split; [reflexivity | split; [reflexivity | eexists; split; reflexivity]]).
  - destruct (searchArtworks_cases b w query) as [(ids & ->) | [(msg & ->) | ->]];
      (split; [reflexivity | split; [reflexivity | eexists; split; reflexivity]]).
Qed.

Lemma every_run_ends_loading_witness :
  exists ev, last (searchArtworks emptyCatalogBrowser (initialWorld 0) "monet") = Some ev
             /\ isTerminal ev = true.
Proof.
  apply (every_run_ends_loading emptyCatalogBrowser (initialWorld 0) "monet"
           (searchArtworks emptyCatalogBrowser (initialWorld 0) "monet")
           (or_intror eq_refl)).
Defined.

Lemma attempt_limited net url n w dt r :
  net url n = Resolves dt r -> status r = 429 ->
  (attempt net url n w).1.1 = Retry
  \/ (attempt net url n w).1.1 = Throw rateLimitError.
Proof.
  intros Hnet Hst. rewrite (attempt_on_429 net url n w dt r Hnet Hst).
  cbn zeta. cbn [fst]. unfold on429.
  destruct (n <? maxRetries)%nat; [by left | by right].
Qed.

Lemma always_limited_outcome net url n w lat resp :
  answeredBy net url lat resp -> (forall k, status (resp k) = 429) ->
  (makeApiCall net url n w).1.1 = Threw rateLimitError.
Proof.
  intros Hnet Hst. revert n w.
  apply (makeApiCall_invocations net url (fun n w x => x.1.1 = Threw rateLimitError)).
  - intros n w r w' evs Ha.
    destruct (attempt_limited net url n w _ _ (Hnet n) (Hst n)) as [H | H];
      rewrite Ha in H; discriminate.
  - intros n w e w' evs Ha.
    destruct (attempt_limited net url n w _ _ (Hnet n) (Hst n)) as [H | H];
      rewrite Ha in H; [discriminate | by injection H as ->].
  - intros n w w' evs _ _ IH.
    by destruct (makeApiCall net url (S n) w') as [[o w2] evs2].
Qed.

(** X16. A listing or search request that is answered 429 throughout
    ends in the rate-limit message of its path, after the skeletons: no
    record is displayed and the browse path does not fall back to the
    curated list. *)
Theorem rate_limited_listing_shows_the_message (b : Browser) (w : World)
    (query : string) (lat : nat -> Z) (resp : nat -> Response) :
  (forall url, answeredBy (network b) url lat resp) ->
  (forall k, status (resp k) = 429) ->
  loadRandomArtworks b w
  = [ShowLoadingSkeletons;
     ShowErrorMessage "API rate limit exceeded. Please wait a moment and try again."]
  /\ searchArtworks b w query
     = [ShowLoadingSkeletons;
        ShowErrorMessage "Search rate limit exceeded. Please wait a moment and try again."].
Proof.
  intros Hnet Hst. unfold loadRandomArtworks, browseTry, searchArtworks, searchTry.
  rewrite !(always_limited_outcome (network b) _ 0 w lat resp (Hnet _) Hst).
  split; reflexivity.
Qed.

Lemma rate_limited_listing_shows_the_message_witness :
  searchArtworks (isolatedBrowser (fun _ _ => Resolves 0 (tooManyRequests None)))
                 (initialWorld 0) "monet"
  = [ShowLoadingSkeletons;
     ShowErrorMessage "Search rate limit exceeded. Please wait a moment and try again."].
Proof.
  apply (rate_limited_listing_shows_the_message
           (isolatedBrowser (fun _ _ => Resolves 0 (tooManyRequests None)))
           (initialWorld 0) "monet" (fun _ => 0) (fun _ => tooManyRequests None));
    [intros url n; reflexivity | intros k; reflexivity].
Defined.

(** ** The search box and the page load *)

Lemma trimStart_blank s : trimStart s = "" <-> blank s = true.
Proof.
  induction s as [| c s IH]; simpl; [done |].
  destruct (isWhiteSpace c); simpl; [exact IH | done].
Qed.

Lemma trimEnd_empty s : trimEnd s = "" <-> blank s = true.
Proof.
  induction s as [| c s IH]; simpl; [done |].
  destruct (trimEnd s) as [| c' kept] eqn:Ht.
  - destruct (isWhiteSpace c); simpl; [| done].
    split; [intros _; by apply IH | done].
  - split; [done |]. intros [_ Hb]%andb_true_iff. apply IH in Hb. discriminate.
Qed.

Lemma blank_trimStart s : blank (trimStart s) = blank s.
Proof.
  induction s as [| c s IH]; simpl; [done |].
  destruct (isWhiteSpace c) eqn:Hc; simpl; [exact IH | by rewrite Hc].
Qed.

Lemma trim_empty s : trim s = "" <-> blank s = true.
Proof. unfold trim. by rewrite trimEnd_empty, blank_trimStart. Qed.

Lemma truthy_Some s : truthy (Some s) = true <-> s <> "".
Proof. destruct s; simpl; split; congruence. Qed.

(** X17. The search box and the URL agree, and a reload repeats the
    request: a query that is blank (empty or white space only) clears the
    box and the [search] parameter and loads random artworks; any other
    query is trimmed, stored in the [search] parameter and searched for;
    and loading the page again with the URL the handler left runs the same
    request and shows the stored query in the box. *)
Theorem search_box_and_reload (b : Browser) (w : World) (pg : Page.t) :
  let after := handleSearch b w pg in
  (blank (Page.inputValue pg) = true ->
   after = (Page.mk "" None, loadRandomArtworks b w))
  /\ (blank (Page.inputValue pg) = false ->
      after = (Page.mk (Page.inputValue pg) (Some (trim (Page.inputValue pg))),
               searchArtworks b w (trim (Page.inputValue pg)))
      /\ Page.inputValue (onDOMContentLoaded b w after.1).1
         = trim (Page.inputValue pg))
  /\ (onDOMContentLoaded b w after.1).2 = after.2.
Proof.
  cbn zeta. unfold handleSearch, clearSearch.
  destruct (blank (Page.inputValue pg)) eqn:Hb.
  - pose proof (proj2 (trim_empty _) Hb) as Ht. rewrite Ht. cbn [truthy fst snd].
    split; [done |]. split; [done |].
    unfold onDOMContentLoaded, initializeApp. cbn [Page.searchParam truthy negb].
    reflexivity.
  - assert (Hne : trim (Page.inputValue pg) <> "").
    { intros Ht%trim_empty. congruence. }
    apply truthy_Some in Hne. rewrite Hne. cbn [fst snd].
    split; [done |].
    unfold onDOMContentLoaded, initializeApp. cbn [Page.searchParam].
    rewrite Hne. cbn [negb default id app fst snd Page.inputValue]. done.
Qed.

Lemma search_box_and_reload_witness :
  handleSearch emptyCatalogBrowser (initialWorld 0) (Page.mk "  monet " None)
  = (Page.mk "  monet " (Some "monet"),
     searchArtworks emptyCatalogBrowser (initialWorld 0) "monet")
  /\ handleSearch emptyCatalogBrowser (initialWorld 0) (Page.mk "   " (Some "monet"))
     = (Page.mk "" None, loadRandomArtworks emptyCatalogBrowser (initialWorld 0)).
Proof.
  split.
  - apply (search_box_and_reload emptyCatalogBrowser (initialWorld 0)
             (Page.mk "  monet " None)). reflexivity.
  - apply (search_box_and_reload emptyCatalogBrowser (initialWorld 0)
             (Page.mk "   " (Some "monet"))). reflexivity.
Defined.

(** ** Titles on cards *)

Lemma length_append (s1 s2 : string) :
  String.length (s1 +:+ s2) = (String.length s1 + String.length s2)%nat.
Proof.
  induction s1 as [| c s1 IH]; [reflexivity |].
  change (S (String.length (s1 +:+ s2)) = S (String.length s1 + String.length s2)).
  by rewrite IH.
Qed.

Lemma length_substring_0 n (s : string) :
  String.length (String.substring 0 n s) = Nat.min n (String.length s).
Proof.
  revert s. induction n as [| n IH]; intros [| c s]; simpl; try done.
  by rewrite IH.
Qed.

Lemma substring_0_append n (s rest : string) :
  (n <= String.length s)%nat ->
  String.substring 0 n (String.substring 0 n s +:+ rest) = String.substring 0 n s.
Proof.
  revert s. induction n as [| n IH]; intros [| c s] Hn.
  - by destruct rest.
  - by destruct rest.
  - simpl in Hn. lia.
  - simpl in Hn.
    change (String c (String.substring 0 n (String.substring 0 n s +:+ rest))
            = String c (String.substring 0 n s)).
    rewrite IH by lia. done.
Qed.

Lemma substring_0_all n (s : string) :
  (String.length s <= n)%nat -> String.substring 0 n s = s.
Proof.
  revert s. induction n as [| n IH]; intros [| c s] Hn; simpl in *; try done.
  - lia.
  - by rewrite IH by lia.
Qed.

(** X18. The title on a card is never longer than 50 characters: it is
    the title itself when that has at most 50 characters, and otherwise 50
    characters that begin with the first 47 of the title and end with
    three dots. *)
Theorem displayTitle_fits (title : string) :
  String.length (displayTitle title) = Nat.min (String.length title) 50
  /\ (displayTitle title = title <-> (String.length title <= 50)%nat)
  /\ String.substring 0 47 (displayTitle title) = String.substring 0 47 title
  /\ ((50 < String.length title)%nat ->
      displayTitle title = String.substring 0 47 title +:+ "...").
Proof.
  unfold displayTitle.
  destruct (Nat.ltb_spec 50 (String.length title)) as [Hlong | Hshort].
  - assert (Hlen : String.length (String.substring 0 47 title +:+ "...") = 50%nat).
    { rewrite length_append, length_substring_0.
      change (String.length "...") with 3%nat. lia. }
    split; [lia |]. split; [| split; [| done]].
    + split; [| lia]. intros Heq. rewrite Heq in Hlen. lia.
    + apply substring_0_append. lia.
  - split; [lia |]. split; [done |]. split; [done |]. lia.
Qed.

(** ** [getRandomSample] *)

(** X19. Provided the shuffle rearranges the array, a random sample of
    size [size] has [min size n] elements for an array of [n], and takes
    each element at most as often as the array holds it. *)
Theorem getRandomSample_is_a_sample (b : Browser) (array : list Z) (size : nat) :
  shuffle b array ≡ₚ array ->
  length (getRandomSample b array size) = Nat.min size (length array)
  /\ getRandomSample b array size ⊆+ array.
Proof.
  intros Hperm. unfold getRandomSample. split.
  - by rewrite length_take, Hperm.
  - etransitivity; [apply sublist_submseteq, sublist_take |].
    by apply Permutation_submseteq.
Qed.

Lemma getRandomSample_is_a_sample_witness :
  length (getRandomSample quietBrowser curatedIds 5) = 5%nat.
Proof.
  apply (getRandomSample_is_a_sample quietBrowser curatedIds 5). reflexivity.
Defined.

(** ** The star rating of the mock page *)

(** X20. The rating is always drawn as five stars, the full ones first:
    as many full stars as the rating says, none below 1 and five from 5
    on; and an artwork without a rating, or with the rating 0, gets five
    full stars. *)
Theorem rating_stars (rating : Z) :
  createRatingStars rating
  = replicate (Z.to_nat (Z.max 0 (Z.min 5 rating))) true
    ++ replicate (5 - Z.to_nat (Z.max 0 (Z.min 5 rating))) false
  /\ length (createRatingStars rating) = 5%nat
  /\ createRatingStars (ratingOrFive None) = replicate 5 true
  /\ createRatingStars (ratingOrFive (Some 0)) = replicate 5 true.
Proof.
  split; [| split; [reflexivity | split; reflexivity]].
  unfold createRatingStars. cbn [map].
  assert (Hcases : rating <= 0 \/ rating = 1 \/ rating = 2 \/ rating = 3
                   \/ rating = 4 \/ 5 <= rating) by lia.
  destruct Hcases as [H | [-> | [-> | [-> | [-> | H]]]]]; try reflexivity.
  - replace (Z.max 0 (Z.min 5 rating)) with 0 by lia.
    repeat match goal with
      | |- context [?a <=? rating] => destruct (Z.leb_spec a rating); [lia |]
      end. reflexivity.
  - replace (Z.max 0 (Z.min 5 rating)) with 5 by lia.
    repeat match goal with
      | |- context [?a <=? rating] => destruct (Z.leb_spec a rating); [| lia]
      end. reflexivity.
Qed.

(** * The detail page *)

(** ** [parseInt] reads back what a template prints *)

Lemma digitValue_pretty_char (d : N) :
  (d < 10)%N -> digitValue (pretty_N_char d) = Some (Z.of_N d).
Proof.
  intros Hd.
  assert (d = 0 \/ d = 1 \/ d = 2 \/ d = 3 \/ d = 4 \/ d = 5 \/ d = 6 \/ d = 7
          \/ d = 8 \/ d = 9)%N as Hc by lia.
  destruct Hc as [-> | [-> | [-> | [-> | [-> | [-> | [-> | [-> | [-> | ->]]]]]]]]];
    reflexivity.
Qed.

Lemma parseDigits_digit (c : ascii) (d : Z) s acc :
  digitValue c = Some d -> d < 10 ->
  parseDigits 10 (String c s) acc = parseDigits 10 s (Some (default 0 acc * 10 + d)).
Proof.
  intros Hc Hd. cbn [parseDigits]. rewrite Hc.
  destruct (Z.ltb_spec d 10); [reflexivity | lia].
Qed.

(** Reading the digits that [pretty] prints for [x] in front of [s]. *)
Lemma parseDigits_pretty_go (x : N) : forall s,
  (0 < x)%N ->
  parseDigits 10 (pretty_N_go x s) None = parseDigits 10 s (Some (Z.of_N x)).
Proof.
  induction (N.lt_wf_0 x) as [x _ IH]. intros s Hx.
  rewrite pretty_N_go_step by done.
  assert (Hd : (x `mod` 10 < 10)%N) by (apply N.mod_lt; lia).
  pose proof (N.div_mod x 10 ltac:(lia)) as Hdm.
  destruct (N.eq_dec (x `div` 10) 0) as [H0 | Hpos].
  - rewrite H0, pretty_N_go_0.
    rewrite (parseDigits_digit _ _ _ _ (digitValue_pretty_char _ Hd)) by lia.
    do 2 f_equal. cbn [default id]. lia.
  - rewrite IH; [| apply N.div_lt; lia | lia].
    rewrite (parseDigits_digit _ _ _ _ (digitValue_pretty_char _ Hd)) by lia.
    do 2 f_equal. cbn [default id]. lia.
Qed.

Lemma allDigits_pretty_go (x : N) : forall s,
  allDigits s = true -> allDigits (pretty_N_go x s) = true.
Proof.
  induction (N.lt_wf_0 x) as [x _ IH]. intros s Hs.
  destruct (N.eq_dec x 0) as [-> | Hx]; [by rewrite pretty_N_go_0 |].
  rewrite pretty_N_go_step by lia.
  apply IH; [apply N.div_lt; lia |].
  cbn [allDigits]. rewrite digitValue_pretty_char by (apply N.mod_lt; lia).
  rewrite Hs, andb_true_r. apply Z.ltb_lt.
  pose proof (N.mod_lt x 10 ltac:(lia)). lia.
Qed.

Lemma pretty_go_nonempty (x : N) : forall s, s <> "" -> pretty_N_go x s <> "".
Proof.
  induction (N.lt_wf_0 x) as [x _ IH]. intros s Hs.
  destruct (N.eq_dec x 0) as [-> | Hx]; [by rewrite pretty_N_go_0 |].
  rewrite pretty_N_go_step by lia. apply IH; [apply N.div_lt; lia | done].
Qed.

Lemma pretty_pos_digits (p : positive) :
  allDigits (pretty (N.pos p)) = true /\ pretty (N.pos p) <> ""
  /\ parseDigits 10 (pretty (N.pos p)) None = Some (Z.pos p).
Proof.
  unfold pretty, pretty_N. destruct (decide (N.pos p = 0%N)); [done |].
  split; [by apply allDigits_pretty_go |]. split.
  - rewrite pretty_N_go_step by lia. by apply pretty_go_nonempty.
  - rewrite parseDigits_pretty_go by lia. reflexivity.
Qed.

(** A decimal digit is neither white space, nor a sign, nor the [x] of a
    hexadecimal prefix. *)
Lemma digit_is_plain (c : ascii) (d : Z) :
  digitValue c = Some d -> d < 10 ->
  isWhiteSpace c = false /\ c <> "-"%char /\ c <> "+"%char
  /\ c <> "x"%char /\ c <> "X"%char.
Proof.
  destruct c as [[] [] [] [] [] [] [] []]; vm_compute; intros [= <-] Hd;
    try discriminate; repeat split; discriminate.
Qed.

(** On a non-empty string of decimal digits [parseInt] reads the digits. *)
Lemma stripHexPrefix_digits s :
  allDigits s = true -> stripHexPrefix s = (10, s).
Proof.
  destruct s as [| c [| c2 rest]]; [reflexivity | |].
  { intros _. by destruct c as [[] [] [] [] [] [] [] []]. }
  cbn [allDigits]. destruct (digitValue c) as [d |] eqn:Hc; [| discriminate].
  destruct (digitValue c2) as [d2 |] eqn:Hc2;
    [| by rewrite andb_false_r].
  intros [Hd [Hd2 _]%andb_true_iff]%andb_true_iff.
  apply Z.ltb_lt in Hd, Hd2.
  destruct (digit_is_plain c2 d2 Hc2 Hd2) as (_ & _ & _ & Hx & HX).
  unfold stripHexPrefix.
  destruct c as [[] [] [] [] [] [] [] []]; try reflexivity.
  destruct c2 as [[] [] [] [] [] [] [] []]; try reflexivity; congruence.
Qed.

Lemma parseInt_digits s :
  allDigits s = true -> s <> "" ->
  parseInt s = match parseDigits 10 s None with Some v => Num v | None => NaN end.
Proof.
  intros Hs Hne. destruct s as [| c rest]; [done |].
  pose proof Hs as Hs'. cbn [allDigits] in Hs'.
  destruct (digitValue c) as [d |] eqn:Hc; [| discriminate].
  apply andb_true_iff in Hs' as [Hd _]. apply Z.ltb_lt in Hd.
  destruct (digit_is_plain c d Hc Hd) as (Hw & Hminus & Hplus & _).
  unfold parseInt. cbn [trimStart]. rewrite Hw.
  assert (Hsign : stripSign (String c rest) = (false, String c rest)).
  { unfold stripSign.
    destruct c as [[] [] [] [] [] [] [] []]; try reflexivity; congruence. }
  rewrite Hsign, (stripHexPrefix_digits _ Hs). reflexivity.
Qed.


(** ** [buildGeographyString] *)

Lemma pushIfPresent_nonempty components v :
  Forall (fun s => s <> "") components ->
  Forall (fun s => s <> "") (pushIfPresent components v).
Proof.
  intros H. unfold pushIfPresent. destruct v as [[| c s] |]; simpl; try done.
  apply Forall_app. split; [done |]. by constructor.
Qed.

Lemma pushIfPresent_nil components v :
  pushIfPresent components v = [] <-> components = [] /\ truthy v = false.
Proof.
  unfold pushIfPresent. destruct (truthy v).
  - split; [| intros [_ [=]]]. by destruct components.
  - split; [done | by intros [-> _]].
Qed.

Lemma concat_empty (l : list string) :
  Forall (fun s => s <> "") l -> String.concat ", " l = "" <-> l = [].
Proof.
  intros Hl. destruct l as [| [| c s] l]; [done | |].
  - by inversion Hl.
  - split; [| done]. destruct l; simpl; discriminate.
Qed.

(** X22. The geography line is empty exactly when the artwork has no
    city, state, country or region; a region that is present is always
    part of it; and the region is not added when it is already there, so
    it never introduces a repetition. *)
Theorem geography_line (artwork : Place) :
  (buildGeographyString artwork = "" <->
   truthy (city artwork) = false /\ truthy (state artwork) = false
   /\ truthy (country artwork) = false /\ truthy (region artwork) = false)
  /\ (forall s, region artwork = Some s -> s <> "" -> s ∈ geoComponents artwork)
  /\ (NoDup (pushIfPresent (pushIfPresent (pushIfPresent [] (city artwork))
                              (state artwork)) (country artwork)) ->
      NoDup (geoComponents artwork)).
Proof.
  unfold buildGeographyString, geoComponents. cbn zeta.
  set (c3 := pushIfPresent (pushIfPresent (pushIfPresent [] (city artwork))
                              (state artwork)) (country artwork)).
  assert (Hc3 : Forall (fun s => s <> "") c3).
  { repeat apply pushIfPresent_nonempty. constructor. }
  assert (Hnil : c3 = [] <-> truthy (city artwork) = false
                             /\ truthy (state artwork) = false
                             /\ truthy (country artwork) = false).
  { unfold c3. rewrite !pushIfPresent_nil. tauto. }
  split; [| split].
  - destruct (truthy (region artwork)) eqn:Hr; cbn [andb].
    + destruct (bool_decide (default "" (region artwork) ∈ c3)) eqn:Hin; cbn [negb].
      * apply bool_decide_eq_true in Hin.
        rewrite concat_empty by done. split; [| intros (_ & _ & _ & [=])].
        intros ->. by apply elem_of_nil in Hin.
      * rewrite concat_empty.
        -- split; [| intros (_ & _ & _ & [=])]. by destruct c3.
        -- apply Forall_app. split; [done |]. constructor; [| done].
           by destruct (region artwork) as [[| c s] |].
    + rewrite concat_empty by done. rewrite Hnil. tauto.
  - intros s Hs Hne. rewrite Hs. cbn [default id].
    assert (Ht : truthy (Some s) = true) by by destruct s.
    rewrite Ht. cbn [andb].
    destruct (bool_decide (s ∈ c3)) eqn:Hin; cbn [negb].
    + by apply bool_decide_eq_true in Hin.
    + apply elem_of_app. right. left.
  - intros Hnd.
    destruct (truthy (region artwork)); cbn [andb]; [| done].
    destruct (bool_decide (default "" (region artwork) ∈ c3)) eqn:Hin;
      cbn [negb]; [done |].
    apply bool_decide_eq_false in Hin.
    apply NoDup_app. split; [done |]. split; [| apply NoDup_singleton].
    intros x Hx Hx'. apply list_elem_of_singleton in Hx'. by subst.
Qed.

(** ** The strip of additional images *)

Lemma blank_trim_eqb img : String.eqb (trim img) "" = blank img.
Proof.
  destruct (blank img) eqn:Hb.
  - apply trim_empty in Hb. by rewrite Hb.
  - apply String.eqb_neq. intros Ht%trim_empty. congruence.
Qed.

Lemma kept_image img :
  truthy (Some img) && negb (String.eqb (trim img) "") = negb (blank img).
Proof.
  rewrite blank_trim_eqb. destruct img as [| c s]; [reflexivity |].
  reflexivity.
Qed.

(** X23. The strip of additional images shows at most five images: the
    first five of the given ones that are not blank, in their order; and
    it is hidden exactly when there is no such image. *)
Theorem additional_images_strip (additionalImages : option (list string)) :
  let images := default [] additionalImages in
  match additionalImagesStrip additionalImages with
  | StripHidden => Forall (fun img => blank img = true) images
  | StripShown shown =>
      (1 <= length shown <= 5)%nat
      /\ shown.*1 = take 5 (List.filter (fun img => negb (blank img)) images)
      /\ shown.*1 `sublist_of` images
      /\ Forall (fun img => blank img = false) shown.*1
  end.
Proof.
  cbn zeta.
  assert (Hvalid : forall images,
             validImages images
             = take 5 (List.filter (fun img => negb (blank img)) images)).
  { intros images. unfold validImages. f_equal.
    apply List.filter_ext. intros img. apply kept_image. }
  assert (Hsub : forall images : list string,
             List.filter (fun img => negb (blank img)) images `sublist_of` images).
  { induction images as [| img images IH]; simpl; [done |].
    destruct (negb (blank img)); by constructor. }
  assert (Hshape : forall images,
             match populateAdditionalImages images with
             | StripHidden => Forall (fun img => blank img = true) images
             | StripShown shown =>
                 (1 <= length shown <= 5)%nat
                 /\ shown.*1 = take 5 (List.filter (fun img => negb (blank img)) images)
                 /\ shown.*1 `sublist_of` images
                 /\ Forall (fun img => blank img = false) shown.*1
             end).
  { intros images. unfold populateAdditionalImages. rewrite Hvalid.
    set (kept := List.filter (fun img => negb (blank img)) images).
    destruct (Nat.eqb_spec (length (take 5 kept)) 0) as [Hz | Hnz].
    - assert (Hk : kept = []).
      { destruct kept; [done |]. simpl in Hz. discriminate. }
      apply Forall_forall. intros img Hin.
      destruct (blank img) eqn:Hb; [done |].
      assert (img ∈ kept) as Hin'.
      { apply list_elem_of_In, List.filter_In. split; [by apply list_elem_of_In |].
        by rewrite Hb. }
      rewrite Hk in Hin'. by apply elem_of_nil in Hin'.
    - assert (Hfst : (imap (fun index imageUrl =>
                              (imageUrl, "Additional view " +:+ pretty (index + 1)%nat))
                           (take 5 kept)).*1 = take 5 kept).
      { generalize (take 5 kept). intros l.
        rewrite fmap_imap. unfold compose. cbn [fst].
        induction l as [| x l IH] using rev_ind; [done |].
        rewrite imap_app, IH. reflexivity. }
      rewrite Hfst, length_imap. split; [| split; [done | split]].
      + rewrite length_take in *. lia.
      + etransitivity; [apply sublist_take | apply Hsub].
      + apply Forall_forall. intros img Hin.
        apply (elem_of_submseteq _ kept) in Hin;
          [| apply sublist_submseteq, sublist_take].
        apply list_elem_of_In, List.filter_In in Hin as [_ Hb].
        by destruct (blank img). }
  destruct additionalImages as [[| img rest] |]; cbn [additionalImagesStrip default id].
  - constructor.
  - apply Hshape.
  - constructor.
Qed.

(** ** The detail page (artwork-detail.js) *)

Lemma Detail_attempt_agrees net url n w :
  Detail.attempt net url n w =
  let '(s, w', evs) := attempt net url n w in (s, w', withoutWarnings evs).
Proof.
  unfold Detail.attempt, attempt, Detail.tryBlock, tryBlock, on429, catchBlock,
    waitIfLimited, advisory, withoutWarnings.
  destruct (mustWait w); destruct (net url n) as [dt r | dt e]; cbn [fst snd];
    repeat (case_match; simplify_eq/=);
    rewrite ?List.filter_app; cbn; reflexivity.
Qed.

Lemma Detail_makeApiCall_step net url n w :
  Detail.makeApiCall net url n w =
  match Detail.attempt net url n w with
  | (Return r, w', evs) => (Returned r, w', evs)
  | (Throw e, w', evs) => (Threw e, w', evs)
  | (Retry, w', evs) => after evs (Detail.makeApiCall net url (S n) w')
  end.
Proof.
  funelim (Detail.makeApiCall net url n w).
  all: match goal with E : Detail.attempt _ _ _ _ = _ |- _ => rewrite E end.
  all: reflexivity.
Qed.

Lemma Detail_makeApiCall_eq net url n w :
  Detail.makeApiCall net url n w =
  ((makeApiCall net url n w).1.1, (makeApiCall net url n w).1.2,
   withoutWarnings (makeApiCall net url n w).2).
Proof.
  revert n w.
  apply (makeApiCall_invocations net url
           (fun n w x => Detail.makeApiCall net url n w
                         = (x.1.1, x.1.2, withoutWarnings x.2))).
  - intros n w r w' evs Ha.
    by rewrite Detail_makeApiCall_step, Detail_attempt_agrees, Ha.
  - intros n w e w' evs Ha.
    by rewrite Detail_makeApiCall_step, Detail_attempt_agrees, Ha.
  - intros n w w' evs Ha _ IH.
    rewrite Detail_makeApiCall_step, Detail_attempt_agrees, Ha, IH.
    destruct (makeApiCall net url (S n) w') as [[o w''] evs'].
    cbn [after fst snd]. unfold withoutWarnings. by rewrite List.filter_app.
Qed.

(** X24. The detail page's copy of [makeApiCall] ends as the gallery's
    does, with the same result and the same globals, after the same fetches
    and waits: the two differ only in the low-quota warning, which the
    detail page does not show. *)
Theorem detail_makeApiCall_agrees net url n w :
  (Detail.makeApiCall net url n w).1 = (makeApiCall net url n w).1
  /\ (Detail.makeApiCall net url n w).2 = withoutWarnings (makeApiCall net url n w).2
  /\ Forall (fun ev => isWarning ev = false) (Detail.makeApiCall net url n w).2.
Proof.
  rewrite Detail_makeApiCall_eq. cbn [fst snd].
  split; [by destruct (makeApiCall net url n w) as [[o w'] evs] |].
  split; [done |].
  unfold withoutWarnings. apply List.Forall_forall. intros ev Hev.
  apply List.filter_In in Hev as [_ Hev].
  by destruct (isWarning ev).
Qed.

(** ** Related artworks *)

Lemma relatedTitle_presentable (title : string) :
  title <> "" ->
  (String.length (Detail.relatedTitle title) <= 30)%nat
  /\ Detail.relatedTitle title <> "".
Proof.
  intros Hne. unfold Detail.relatedTitle.
  destruct (Nat.ltb_spec 30 (String.length title)) as [Hlong | Hshort].
  - assert (Hlen : String.length (String.substring 0 27 title +:+ "...") = 30%nat).
    { rewrite length_append, length_substring_0.
      change (String.length "...") with 3%nat. lia. }
    split; [lia |]. intros Heq. by rewrite Heq in Hlen.
  - done.
Qed.

Lemma collect_cases artworks o :
  Detail.collect artworks o = artworks
  \/ exists a, Detail.collect artworks o = artworks ++ [a] /\ presentable a.
Proof.
  unfold Detail.collect.
  destruct o as [r | e]; [| by left].
  destruct (body r) as [e | artwork]; [by left |].
  destruct (truthy (primaryImageSmall artwork)) eqn:Himg; [| by left].
  destruct (truthy (title artwork)) eqn:Ht; [| by left].
  right. eexists. split; [reflexivity |].
  destruct (primaryImageSmall artwork) as [img |]; [| done].
  destruct (title artwork) as [t |]; [| done].
  apply truthy_Some in Himg, Ht.
  destruct (relatedTitle_presentable t Ht) as [Hlen Hne].
  by repeat split.
Qed.

Lemma collect_length artworks o :
  (length artworks <= length (Detail.collect artworks o) <= S (length artworks))%nat.
Proof.
  destruct (collect_cases artworks o) as [-> | (a & -> & _)]; [lia |].
  rewrite length_app. simpl. lia.
Qed.

Lemma collect_presentable artworks o :
  Forall presentable artworks -> Forall presentable (Detail.collect artworks o).
Proof.
  intros Hall.
  destruct (collect_cases artworks o) as [-> | (a & -> & Ha)]; [done |].
  apply Forall_app. split; [done | by constructor].
Qed.

Lemma relatedLoop_result env ids artworks w :
  (length artworks < 6)%nat -> Forall presentable artworks ->
  (length (Detail.relatedLoop env ids artworks w).1.1 <= 6)%nat
  /\ Forall presentable (Detail.relatedLoop env ids artworks w).1.1.
Proof.
  revert artworks w. induction ids as [| id rest IH]; intros artworks w Hlen Hall.
  - simpl. split; [lia | done].
  - cbn [Detail.relatedLoop].
    destruct (Detail.makeApiCall _ _ 0 w) as [[o w1] evs].
    pose proof (collect_length artworks o) as Hc.
    pose proof (collect_presentable artworks o Hall) as Hp.
    destruct (Nat.leb_spec 6 (length (Detail.collect artworks o))) as [Hsix | Hless].
    + cbn [fst]. split; [lia | done].
    + specialize (IH (Detail.collect artworks o) (sleep (Num 200) w1) Hless Hp).
      destruct (Detail.relatedLoop env rest _ _) as [[result w3] steps].
      exact IH.
Qed.

(** X25. [loadRelatedArtworkDetails] returns at most six records; each
    has an image address and a title that are not empty, and a title of at
    most 30 characters. *)
Theorem related_at_most_six env ids w :
  (length (Detail.loadRelatedArtworkDetails env ids w).1.1 <= 6)%nat
  /\ Forall presentable (Detail.loadRelatedArtworkDetails env ids w).1.1.
Proof.
  unfold Detail.loadRelatedArtworkDetails.
  apply relatedLoop_result; [simpl; lia | constructor].
Qed.

Lemma relatedLoop_steps env ids artworks w :
  (length artworks < 6)%nat ->
  let '(result, _, steps) := Detail.relatedLoop env ids artworks w in
  requestedIds steps `prefix_of` ids
  /\ ((length result < 6)%nat ->
      requestedIds steps = ids /\ pauses steps = map (fun _ => 200) ids)
  /\ ((6 <= length result)%nat ->
      exists evs id,
        last steps = Some (Detail.Requested id evs)
        /\ S (length (pauses steps)) = length (requestedIds steps))
  /\ Forall (fun ms => ms = 200) (pauses steps).
Proof.
  revert artworks w. induction ids as [| id rest IH]; intros artworks w Hlen.
  - simpl. split; [done |]. split; [done |]. split; [lia | constructor].
  - cbn [Detail.relatedLoop].
    destruct (Detail.makeApiCall _ _ 0 w) as [[o w1] evs].
    pose proof (collect_length artworks o) as Hc.
    destruct (Nat.leb_spec 6 (length (Detail.collect artworks o))) as [Hsix | Hless].
    + split; [by apply prefix_cons, prefix_nil |].
      split; [lia |]. split; [| constructor].
      intros _. by exists evs, id.
    + specialize (IH (Detail.collect artworks o) (sleep (Num 200) w1) Hless).
      destruct (Detail.relatedLoop env rest _ _) as [[result w3] steps].
      destruct IH as (Hpre & Hfew & Hsix & Hall).
      split; [by apply prefix_cons |].
      split; [| split].
      * intros Hr. destruct (Hfew Hr) as [Hreq Hp].
        split; [exact (f_equal (cons id) Hreq) | exact (f_equal (cons 200) Hp)].
      * intros Hr. destruct (Hsix Hr) as (evs' & id' & Hlast & Hcount).
        exists evs', id'. split.
        -- destruct steps as [| s steps]; [done |].
           exact Hlast.
        -- exact (f_equal S Hcount).
      * exact (Forall_cons_2 _ 200 _ eq_refl Hall).
Qed.

(** X26. [loadRelatedArtworkDetails] requests the identifiers one after
    the other in the order of its argument and stops with the request that
    yields the sixth record.  It waits 200 ms after every request but that
    one: with fewer than six records it has requested every identifier and
    has waited after each of them, the last included. *)
Theorem related_requests_in_order env ids w :
  let '(result, _, steps) := Detail.loadRelatedArtworkDetails env ids w in
  requestedIds steps `prefix_of` ids
  /\ ((length result < 6)%nat ->
      requestedIds steps = ids /\ pauses steps = map (fun _ => 200) ids)
  /\ ((6 <= length result)%nat ->
      exists evs id,
        last steps = Some (Detail.Requested id evs)
        /\ S (length (pauses steps)) = length (requestedIds steps))
  /\ Forall (fun ms => ms = 200) (pauses steps).
Proof.
  unfold Detail.loadRelatedArtworkDetails.
  apply (relatedLoop_steps env ids [] w). simpl. lia.
Qed.

Lemma loadRelatedArtworks_cases env dept cult c w :
  (exists w', Detail.loadRelatedArtworks env dept cult c w = (Detail.SectionHidden, w', []))
  \/ (exists w', Detail.loadRelatedArtworks env dept cult c w
                 = (Detail.SectionUntouched, w', []))
  \/ (exists ids w1,
        ids <> []
        /\ Detail.loadRelatedArtworks env dept cult c w
           = let '(relatedData, w2, steps) :=
               Detail.relatedLoop env (Detail.relatedIds env ids c) [] w1 in
             (Detail.populateRelatedArtworks relatedData, w2, steps)).
Proof.
  unfold Detail.loadRelatedArtworks, Detail.loadRelatedArtworkDetails.
  destruct (Detail.makeApiCall _ _ 0 w) as [[[r | e] w1] evs]; [| left; by eexists].
  destruct (body r) as [e | data]; [left; by eexists |].
  destruct (objectIDs data) as [[| x rest] |];
    [right; left; by eexists | | right; left; by eexists].
  right. right. by exists (x :: rest), w1.
Qed.

(** X27. When [loadRelatedArtworks] shows related artworks, it shows at
    least one and at most six of them, each with an image address and a
    title of at most 30 characters; an empty list is never shown. *)
Theorem related_section_shown env dept cult c w artworks :
  (Detail.loadRelatedArtworks env dept cult c w).1.1 = Detail.SectionShown artworks ->
  artworks <> [] /\ (length artworks <= 6)%nat /\ Forall presentable artworks.
Proof.
  destruct (loadRelatedArtworks_cases env dept cult c w)
    as [(w' & ->) | [(w' & ->) | (ids & w1 & _ & ->)]]; [done | done |].
  pose proof (relatedLoop_result env (Detail.relatedIds env ids c) [] w1) as Hres.
  destruct (Detail.relatedLoop env _ [] w1) as [[relatedData w2] steps].
  cbn [fst snd] in *. intros Hshown.
  destruct Hres as [Hlen Hall]; [simpl; lia | constructor |].
  destruct relatedData as [| a l]; [done |].
  injection Hshown as <-. done.
Qed.

Lemma related_section_shown_witness :
  relatedShown <> [] /\ (length relatedShown <= 6)%nat /\ Forall presentable relatedShown.
Proof.
  apply (related_section_shown relatedEnv (Some "European Paintings") None 436532
           (initialWorld 0) relatedShown).
  vm_compute. reflexivity.
Defined.

Lemma relatedIds_exclude env ids c :
  (forall l x, x ∈ Detail.shuffle env l -> x ∈ l) ->
  forall x, x ∈ Detail.relatedIds env ids c -> x ∈ ids /\ x <> c.
Proof.
  intros Hshuffle x Hx. unfold Detail.relatedIds, Detail.getRandomSample in Hx.
  assert (Hparse : parseInt (pretty c) = Num c).
  { destruct c as [| p | p].
    - reflexivity.
    - destruct (pretty_pos_digits p) as (Hd & Hne & Hv).
      change (pretty (Z.pos p)) with (pretty (N.pos p)).
      by rewrite (parseInt_digits _ Hd Hne), Hv.
    - destruct (pretty_pos_digits p) as (Hd & Hne & Hv).
      change (pretty (Z.neg p)) with ("-" +:+ pretty (N.pos p)).
      unfold parseInt.
      change (trimStart ("-" +:+ pretty (N.pos p))) with ("-" +:+ pretty (N.pos p)).
      change (stripSign ("-" +:+ pretty (N.pos p))) with (true, pretty (N.pos p)).
      cbn iota. rewrite (stripHexPrefix_digits _ Hd), Hv. reflexivity. }
  rewrite Hparse in Hx.
  apply elem_of_take in Hx as (i & Hx & _).
  apply list_elem_of_lookup_2, Hshuffle in Hx.
  apply list_elem_of_In, List.filter_In in Hx as [Hin Hdiff].
  split; [by apply list_elem_of_In |].
  unfold Detail.differs in Hdiff. apply negb_true_iff, Z.eqb_neq in Hdiff. done.
Qed.

(** X28. Provided the shuffle yields only elements of the array it is
    given, the artwork on the page is never among the related artworks
    that are requested. *)
Theorem related_never_requests_current env dept cult c w :
  (forall l x, x ∈ Detail.shuffle env l -> x ∈ l) ->
  c ∉ requestedIds (Detail.loadRelatedArtworks env dept cult c w).2.
Proof.
  intros Hshuffle.
  destruct (loadRelatedArtworks_cases env dept cult c w)
    as [(w' & ->) | [(w' & ->) | (ids & w1 & _ & ->)]];
    [apply not_elem_of_nil | apply not_elem_of_nil |].
  pose proof (relatedLoop_steps env (Detail.relatedIds env ids c) [] w1) as Hsteps.
  destruct (Detail.relatedLoop env _ [] w1) as [[relatedData w2] steps].
  cbn [fst snd]. destruct Hsteps as [[rest Hpre] _]; [simpl; lia |].
  intros Hin.
  assert (Hc : c ∈ Detail.relatedIds env ids c).
  { rewrite Hpre. apply elem_of_app. by left. }
  by destruct (relatedIds_exclude env ids c Hshuffle c Hc).
Qed.

Lemma related_never_requests_current_witness :
  436532 ∉ requestedIds
    (Detail.loadRelatedArtworks relatedEnv (Some "European Paintings") None 436532
       (initialWorld 0)).2.
Proof.
  apply (related_never_requests_current relatedEnv (Some "European Paintings") None
           436532 (initialWorld 0)).
  intros l x Hx. exact Hx.
Defined.

(** ** The messages of the detail page *)

Lemma networkAt_first env w url :
  Detail.networkAt env w url 0%nat = Detail.fetchAt env (apiCallCount w + 1) url.
Proof. unfold Detail.networkAt. simpl Z.of_nat. by rewrite Z.add_0_r. Qed.

Lemma Detail_http_error_outcome net url w dt r :
  net url 0%nat = Resolves dt r -> status r <> 429 -> ok r = false ->
  includes "fetch" (httpErrorMessage r) = false ->
  (Detail.makeApiCall net url 0 w).1.1 = Threw (Error (httpErrorMessage r)).
Proof.
  intros Hnet Hst Hok Hmsg.
  rewrite Detail_makeApiCall_eq, makeApiCall_step. cbn [fst snd].
  rewrite (attempt_on_http_error net url 0 w dt r Hnet Hst Hok).
  unfold catchBlock, looksLikeNetworkError.
  cbn [name message Error String.eqb Ascii.eqb Bool.eqb orb].
  rewrite Hmsg, andb_false_r. reflexivity.
Qed.

Lemma Detail_ok_outcome net url w dt r :
  net url 0%nat = Resolves dt r -> ok r = true ->
  (Detail.makeApiCall net url 0 w).1.1 = Returned r.
Proof.
  intros Hnet Hok. rewrite Detail_makeApiCall_step.
  unfold Detail.attempt, Detail.tryBlock. rewrite Hnet.
  destruct (waitIfLimited w) as [w1 waited].
  assert (Hst : (status r =? 429) = false).
  { unfold ok in Hok. apply andb_true_iff in Hok as [_ Hle].
    apply Z.leb_le in Hle. apply Z.eqb_neq. lia. }
  rewrite Hst, Hok. reflexivity.
Qed.

Lemma notFound_message st :
  "HTTP " +:+ pretty 404 +:+ ": " +:+ st = "HTTP 404: " +:+ st.
Proof.
  assert (H : pretty 404 = "404") by (vm_compute; reflexivity).
  rewrite H. reflexivity.
Qed.

Lemma includes_after_notFound st :
  includes "fetch" ("HTTP 404: " +:+ st) = includes "fetch" st
  /\ includes "Rate limited" ("HTTP 404: " +:+ st) = includes "Rate limited" st
  /\ includes "HTTP 404" ("HTTP 404: " +:+ st) = true.
Proof. repeat split; reflexivity. Qed.

(** X29. When the fetch for the artwork is answered 404, the detail page
    shows that the artwork was not found and nothing else, provided the
    status text contains neither "fetch", which would make the request be
    retried, nor "Rate limited", which would show the rate-limit message. *)
Theorem not_found_message env objectId w dt r :
  Detail.fetchAt env (apiCallCount w + 1) (MET_API_BASE +:+ "/objects/" +:+ objectId)
  = Resolves dt r ->
  status r = 404 ->
  includes "fetch" (statusText r) = false ->
  includes "Rate limited" (statusText r) = false ->
  Detail.loadArtworkDetails env objectId w
  = [Detail.ShowLoading;
     Detail.ShowError "This artwork was not found in the museum's collection."].
Proof.
  intros Hnet Hst Hfetch Hrate.
  rewrite <- networkAt_first in Hnet.
  assert (Hmsg : httpErrorMessage r = "HTTP 404: " +:+ statusText r).
  { unfold httpErrorMessage. rewrite Hst. apply notFound_message. }
  destruct (includes_after_notFound (statusText r)) as (Hf & Hr & H404).
  assert (Hout := Detail_http_error_outcome (Detail.networkAt env w) _ w dt r Hnet).
  rewrite Hmsg in Hout.
  specialize (Hout ltac:(lia)).
  specialize (Hout ltac:(unfold ok; rewrite Hst; reflexivity)).
  specialize (Hout ltac:(by rewrite Hf)).
  unfold Detail.loadArtworkDetails.
  destruct (Detail.makeApiCall _ _ 0 w) as [[o w1] evs]. cbn [fst] in Hout.
  subst o. unfold Detail.errorMessageFor. cbn [message Error].
  by rewrite Hr, Hrate, H404.
Qed.

Lemma not_found_message_witness :
  Detail.loadArtworkDetails (constantEnv (Resolves 0 notFound)) "1" (initialWorld 0)
  = [Detail.ShowLoading;
     Detail.ShowError "This artwork was not found in the museum's collection."].
Proof.
  apply (not_found_message (constantEnv (Resolves 0 notFound)) "1" (initialWorld 0)
           0 notFound); reflexivity.
Defined.

(** X30. When the answer is a success whose object has no identifier (or
    the identifier 0), the page shows the general message "Failed to load
    artwork details.": the error thrown for it says "Artwork not found",
    which none of the tests on the message recognises. *)
Theorem artwork_without_id_message env objectId w dt r artworkData :
  Detail.fetchAt env (apiCallCount w + 1) (MET_API_BASE +:+ "/objects/" +:+ objectId)
  = Resolves dt r ->
  ok r = true ->
  body r = BodyJson artworkData ->
  Detail.truthyId (objectID artworkData) = false ->
  Detail.loadArtworkDetails env objectId w
  = [Detail.ShowLoading; Detail.ShowError "Failed to load artwork details."].
Proof.
  intros Hnet Hok Hbody Hid.
  rewrite <- networkAt_first in Hnet.
  pose proof (Detail_ok_outcome (Detail.networkAt env w) _ w dt r Hnet Hok) as Hout.
  unfold Detail.loadArtworkDetails.
  destruct (Detail.makeApiCall _ _ 0 w) as [[o w1] evs]. cbn [fst] in Hout.
  subst o. rewrite Hbody, Hid. reflexivity.
Qed.

Lemma artwork_without_id_message_witness :
  Detail.loadArtworkDetails (constantEnv (Resolves 0 anonymousAnswer)) "1"
    (initialWorld 0)
  = [Detail.ShowLoading; Detail.ShowError "Failed to load artwork details."].
Proof.
  apply (artwork_without_id_message (constantEnv (Resolves 0 anonymousAnswer)) "1"
           (initialWorld 0) 0 anonymousAnswer
           (mkRaw None None (Some "Wheat Field") None None None None None None None));
    reflexivity.
Defined.
